(** * py-snake rendering core: perspective projector, wireframe solids,
      colour oscillator

    Shallow embedding of [perspective.py], [wireframe_cube.py],
    [color_system.py] and the [LowPolySphere] class of [main.py].

    Numbers.  The Python code computes with [float] (and with [int]
    constants that are promoted on first contact with a float).  The
    code is read in two ways.

    Over the reals, as the specification's data model reads every
    coordinate: a Python float is an element of [R], [+ - * /] are the
    field operations, [math.sqrt], [math.cos], [math.sin] are [sqrt],
    [cos], [sin].  Integer constants that the source writes as [int]
    stay in [Z] and are injected with [IZR] where the source multiplies
    them with a float.  What is proved in this reading holds in exact
    arithmetic; where rounding makes the program differ, the theorem
    says that it speaks of the reals.

    In binary64, as the interpreter computes (module [Binary64]): the
    same expressions over the primitive floats, each operation rounded.
    This reading decides what the program returns for given floats; it
    is where an identity of the reals is shown to fail in the last
    bits.

    Errors.  The one exception the modelled code can raise is
    [ZeroDivisionError] (float division by zero).  Fallible functions
    return a [result]. *)

From Stdlib Require Import Reals Lra Lia ZArith List Bool.
From Stdlib Require PrimFloat SpecFloat FloatOps.
Import ListNotations.

#[local] Set Warnings "-inexact-float".

Local Open Scope R_scope.

(** ** Exceptions as values *)

Inductive exn : Type :=
| ZeroDivisionError.

Inductive result (A : Type) : Type :=
| Ok (a : A)
| Raise (e : exn).

Arguments Ok {A} a.
Arguments Raise {A} e.

Definition bind {A B : Type} (m : result A) (k : A -> result B) : result B :=
  match m with
  | Ok a => k a
  | Raise e => Raise e
  end.

Definition fmap {A B : Type} (f : A -> B) (m : result A) : result B :=
  bind m (fun a => Ok (f a)).

Notation "x <- m ;; k" := (bind m (fun x => k))
  (at level 61, m at next level, right associativity).

(** [a / b] on floats: raises when the divisor is zero. *)
Definition py_div (a b : R) : result R :=
  if Req_dec_T b 0 then Raise ZeroDivisionError else Ok (a / b).

(** [a % b] on floats, for a modulus [b] that is not zero: the result has
    the sign of [b] and differs from [a] by a whole multiple of [b].  The
    source only ever uses the literal moduli [1.0] and [360]. *)
Definition float_mod (a b : R) : R := a - b * IZR (Zfloor (a / b)).

(** [int(x)] on a float: truncation toward zero. *)
Definition py_int (x : R) : Z :=
  if Rle_dec 0 x then Zfloor x else Zceil x.

Definition Point2 : Type := R * R.
Definition Point3 : Type := R * R * R.

(** Euclidean distances on the screen and in world space. *)
Definition dist2 (p q : Point2) : R :=
  let '(px, py) := p in
  let '(qx, qy) := q in
  sqrt ((px - qx) * (px - qx) + (py - qy) * (py - qy)).

Definition dist3 (p q : Point3) : R :=
  let '(px, py, pz) := p in
  let '(qx, qy, qz) := q in
  sqrt ((px - qx) * (px - qx) + (py - qy) * (py - qy) + (pz - qz) * (pz - qz)).

(** ** perspective.py *)

Module PerspectiveCamera.

Record t : Type := mk {
  screen_width : Z;
  screen_height : Z;
  vp_x : R;
  vp_y : R;
  perspective_strength : R
}.

(** Default of the keyword argument [perspective_strength]. *)
Definition default_perspective_strength : R := 300.

(** [__init__]: an omitted vanishing point ([None]) defaults to the
    horizontal centre and 75% of the height. *)
Definition init (screen_width screen_height : Z)
    (vanishing_point_x vanishing_point_y : option R)
    (perspective_strength : R) : t :=
  {| screen_width := screen_width;
     screen_height := screen_height;
     vp_x := match vanishing_point_x with
             | Some v => v
             | None => IZR screen_width / 2
             end;
     vp_y := match vanishing_point_y with
             | Some v => v
             | None => IZR screen_height * 0.75
             end;
     perspective_strength := perspective_strength |}.

(** [PerspectiveCamera(w, h)] with every keyword argument left out. *)
Definition make (screen_width screen_height : Z) : t :=
  init screen_width screen_height None None default_perspective_strength.

Definition project_3d_to_2d (self : t) (x y z : R) : result Point2 :=
  perspective_factor <-
    py_div (perspective_strength self) (perspective_strength self + z) ;;
  let screen_x := vp_x self + (x - vp_x self) * perspective_factor in
  let screen_y := vp_y self + (y - vp_y self) * perspective_factor in
  Ok (screen_x, screen_y).

(** The list comprehension evaluates left to right and stops at the
    first element that raises. *)
Fixpoint project_points (self : t) (points_3d : list Point3)
    : result (list Point2) :=
  match points_3d with
  | [] => Ok []
  | (x, y, z) :: rest =>
      p <- project_3d_to_2d self x y z ;;
      ps <- project_points self rest ;;
      Ok (p :: ps)
  end.

(** "The point projected at depth [z2] is strictly closer to the vanishing
    point than the point projected at depth [z1]": both projections
    return, and the distances compare. *)
Definition strictly_closer (self : t) (x y z1 z2 : R) : Prop :=
  exists p1 p2 : Point2,
    project_3d_to_2d self x y z1 = Ok p1 /\
    project_3d_to_2d self x y z2 = Ok p2 /\
    dist2 p2 (vp_x self, vp_y self) < dist2 p1 (vp_x self, vp_y self).

End PerspectiveCamera.

(** ** Edge lists of wireframe solids

    Both solids store their edges as pairs of vertex indices.  The
    following read an edge list as an undirected graph. *)

Module Wire.

Definition edge : Type := (nat * nat)%type.

(** The closed polygon through the listed vertices, in the order
    [(v0, v1), (v1, v2), ..., (vlast, v0)]. *)
Definition closed_loop (vs : list nat) : list edge :=
  match vs with
  | [] => []
  | v0 :: tl => combine vs (tl ++ [v0])
  end.

(** The other endpoints of the entries of [es] that touch [v], one per
    entry. *)
Definition touching (es : list edge) (v : nat) : list nat :=
  flat_map (fun e : edge =>
              let (a, b) := e in
              if Nat.eqb a v then [b] else if Nat.eqb b v then [a] else [])
           es.

(** Distinct neighbours of [v]. *)
Definition neighbours (es : list edge) (v : nat) : list nat :=
  nodup Nat.eq_dec (touching es v).

Definition degree (es : list edge) (v : nat) : nat :=
  length (neighbours es v).

(** An edge with its endpoints in increasing order. *)
Definition oriented (e : edge) : edge :=
  let (a, b) := e in if Nat.leb a b then (a, b) else (b, a).

Definition edge_eq_dec (e1 e2 : edge) : {e1 = e2} + {e1 <> e2}.
Proof. decide equality; apply Nat.eq_dec. Defined.

(** The undirected edges of [es], each listed once. *)
Definition undirected (es : list edge) : list edge :=
  nodup edge_eq_dec (map oriented es).

Definition has_edge (es : list edge) (a b : nat) : bool :=
  existsb (fun e : edge =>
             let (c, d) := e in
             (Nat.eqb c a && Nat.eqb d b) || (Nat.eqb c b && Nat.eqb d a))
          es.

End Wire.

(** ** wireframe_cube.py *)

Module WireframeCube.

Record t : Type := mk {
  position : Point3;
  size : R;
  vertices_3d : list Point3
}.

Definition UNIT_CUBE_VERTICES : list (Z * Z * Z) :=
  [ (-1, -1, -1);
    (1, -1, -1);
    (1, 1, -1);
    (-1, 1, -1);
    (-1, -1, 1);
    (1, -1, 1);
    (1, 1, 1);
    (-1, 1, 1) ]%Z.

Definition EDGES : list Wire.edge :=
  [ (0, 1); (1, 2); (2, 3); (3, 0);
    (4, 5); (5, 6); (6, 7); (7, 4);
    (0, 4); (1, 5); (2, 6); (3, 7) ]%nat.

(** Reads [position] and [size] only, so it takes them as arguments; the
    method is this function at [position self] and [size self]. *)
Definition world_vertices_at (position : Point3) (size : R) : list Point3 :=
  let '(px, py, pz) := position in
  let half_size := size / 2 in
  map (fun v : Z * Z * Z =>
         let '(vx, vy, vz) := v in
         (px + IZR vx * half_size, py + IZR vy * half_size, pz + IZR vz * half_size))
      UNIT_CUBE_VERTICES.

Definition _calculate_world_vertices (self : t) : list Point3 :=
  world_vertices_at (position self) (size self).

Definition init (position_3d : Point3) (size : R) : t :=
  {| position := position_3d;
     size := size;
     vertices_3d := world_vertices_at position_3d size |}.

Definition update_position (self : t) (new_position : Point3) : t :=
  let self1 := {| position := new_position;
                  size := size self;
                  vertices_3d := vertices_3d self |} in
  {| position := position self1;
     size := size self1;
     vertices_3d := _calculate_world_vertices self1 |}.

(** A cube as the program can hold one: constructed, then moved any
    number of times. *)
Definition after_moves (position_3d : Point3) (size : R) (moves : list Point3) : t :=
  fold_left update_position moves (init position_3d size).

(** Componentwise translation of a point. *)
Definition translate (delta v : Point3) : Point3 :=
  let '(dx, dy, dz) := delta in
  let '(x, y, z) := v in
  (x + dx, y + dy, z + dz).

Definition delta (new old : Point3) : Point3 :=
  let '(nx, ny, nz) := new in
  let '(ox, oy, oz) := old in
  (nx - ox, ny - oy, nz - oz).

(** Number of coordinates in which two local vertices differ. *)
Definition differing_axes (u v : Z * Z * Z) : nat :=
  let '(ux, uy, uz) := u in
  let '(vx, vy, vz) := v in
  ((if Z.eqb ux vx then 0 else 1)
   + (if Z.eqb uy vy then 0 else 1)
   + (if Z.eqb uz vz then 0 else 1))%nat.

Definition local_vertex (i : nat) : Z * Z * Z :=
  nth i UNIT_CUBE_VERTICES (0, 0, 0)%Z.

Definition z_of (v : Z * Z * Z) : Z := snd v.
Definition xy_of (v : Z * Z * Z) : Z * Z := fst v.

(** The cached world vertices agree with the current centre and size. *)
Definition consistent (c : t) : Prop :=
  vertices_3d c = world_vertices_at (position c) (size c).

End WireframeCube.

(** ** main.py, class LowPolySphere *)

Module LowPolySphere.

Record t : Type := mk {
  position : Point3;
  size : R;
  rotation_angle : R;
  rotation_speed : R;
  base_vertices : list Point3;
  vertices_3d : list Point3;
  edges : list Wire.edge
}.

(** The golden ratio. *)
Definition phi : R := (1 + sqrt 5) / 2.

(** The list [vertices] of [_generate_icosahedron], before normalisation. *)
Definition raw_vertices : list Point3 :=
  [ (-1, phi, 0);
    (1, phi, 0);
    (-1, -phi, 0);
    (1, -phi, 0);
    (0, -1, phi);
    (0, 1, phi);
    (0, -1, -phi);
    (0, 1, -phi);
    (phi, 0, -1);
    (phi, 0, 1);
    (-phi, 0, -1);
    (-phi, 0, 1) ].

(** Body of the normalising loop.  The division is by a length that is
    positive for every entry of [raw_vertices] (lemma
    [raw_vertices_positive_length]), so it cannot raise. *)
Definition normalize (v : Point3) : Point3 :=
  let '(x, y, z) := v in
  let length := sqrt (x * x + y * y + z * z) in
  (x / length, y / length, z / length).

Definition _generate_icosahedron : list Point3 :=
  map normalize raw_vertices.

Definition _generate_edges : list Wire.edge :=
  [ (0, 11); (0, 5); (0, 1); (0, 7); (0, 10);
    (1, 5); (5, 9); (11, 5); (11, 4); (11, 10);
    (2, 3); (2, 4); (2, 6); (2, 10); (2, 11);
    (1, 7); (1, 9); (3, 9); (3, 4); (3, 6);
    (4, 9); (6, 7); (6, 8); (6, 10); (7, 8);
    (7, 10); (8, 9); (8, 3); (9, 5); (4, 5) ]%nat.

(** [math.radians]. *)
Definition radians (angle_deg : R) : R := angle_deg * PI / 180.

Definition _rotate_y (point : Point3) (angle_deg : R) : Point3 :=
  let '(x, y, z) := point in
  let angle_rad := radians angle_deg in
  let cos_a := cos angle_rad in
  let sin_a := sin angle_rad in
  let new_x := x * cos_a + z * sin_a in
  let new_z := - x * sin_a + z * cos_a in
  (new_x, y, new_z).

Definition _calculate_world_vertices (self : t) : list Point3 :=
  let '(px, py, pz) := position self in
  map (fun v : Point3 =>
         let '(rx, ry, rz) := _rotate_y v (rotation_angle self) in
         (px + rx * size self, py + ry * size self, pz + rz * size self))
      (base_vertices self).

Definition set_position (self : t) (p : Point3) : t :=
  mk p (size self) (rotation_angle self) (rotation_speed self)
     (base_vertices self) (vertices_3d self) (edges self).

Definition set_rotation_angle (self : t) (a : R) : t :=
  mk (position self) (size self) a (rotation_speed self)
     (base_vertices self) (vertices_3d self) (edges self).

Definition set_vertices_3d (self : t) (vs : list Point3) : t :=
  mk (position self) (size self) (rotation_angle self) (rotation_speed self)
     (base_vertices self) vs (edges self).

Definition set_edges (self : t) (es : list Wire.edge) : t :=
  mk (position self) (size self) (rotation_angle self) (rotation_speed self)
     (base_vertices self) (vertices_3d self) es.

(** [__init__].  The attributes are assigned in the order of the source;
    [vertices_3d] and [edges] do not exist before their assignment and
    are empty here until then. *)
Definition init (position_3d : Point3) (size : R) : t :=
  let self := mk position_3d size 0 10 _generate_icosahedron [] [] in
  let self := set_vertices_3d self (_calculate_world_vertices self) in
  set_edges self _generate_edges.

Definition update (self : t) (dt : R) : t :=
  let self :=
    set_rotation_angle self
      (float_mod (rotation_angle self + rotation_speed self * dt) 360) in
  set_vertices_3d self (_calculate_world_vertices self).

Definition update_position (self : t) (new_position : Point3) : t :=
  let self := set_position self new_position in
  set_vertices_3d self (_calculate_world_vertices self).

(** The two mutators, as calls the game loop can make. *)
Inductive call : Type :=
| Update (dt : R)
| UpdatePosition (new_position : Point3).

Definition step (self : t) (c : call) : t :=
  match c with
  | Update dt => update self dt
  | UpdatePosition p => update_position self p
  end.

(** A sphere as the program can hold one: constructed, then any sequence
    of [update] and [update_position]. *)
Definition after_calls (position_3d : Point3) (size : R) (calls : list call) : t :=
  fold_left step calls (init position_3d size).

(** Squared Euclidean norm of a point read as a vector. *)
Definition norm_sq (v : Point3) : R :=
  let '(x, y, z) := v in x * x + y * y + z * z.

(** Squared distance between two raw vertices, given by index. *)
Definition raw_dist_sq (i j : nat) : R :=
  let '(x1, y1, z1) := nth i raw_vertices (0, 0, 0) in
  let '(x2, y2, z2) := nth j raw_vertices (0, 0, 0) in
  (x1 - x2) * (x1 - x2) + (y1 - y2) * (y1 - y2) + (z1 - z2) * (z1 - z2).

(** The points [(0, a, b phi)], [(a, b phi, 0)], [(b phi, 0, a)] for one
    choice of signs [a], [b]. *)
Definition cyclic_triple (ab : R * R) : list Point3 :=
  let (a, b) := ab in
  [ (0, a, b * phi); (a, b * phi, 0); (b * phi, 0, a) ].

Definition sign_pairs : list (R * R) :=
  [ (1, 1); (1, -1); (-1, 1); (-1, -1) ].

(** The cached world vertices agree with the current centre, size,
    rotation and base vertices. *)
Definition consistent (self : t) : Prop :=
  vertices_3d self = _calculate_world_vertices self.

End LowPolySphere.

(** ** color_system.py *)

Module ColorEvolution.

Record t : Type := mk {
  cycle_duration : R;
  start_time : R
}.

(** Default of the keyword argument [cycle_duration]. *)
Definition default_cycle_duration : R := 60.

(** [__init__]; [now] is the value [time.time()] returns during the call. *)
Definition init (cycle_duration : R) (now : R) : t :=
  {| cycle_duration := cycle_duration; start_time := now |}.

(** Every method reads the clock once; [now] is that reading. *)
Definition get_master_hue (self : t) (now : R) : result R :=
  let elapsed := now - start_time self in
  q <- py_div elapsed (cycle_duration self) ;;
  Ok (float_mod q 1).

(** The [(hue, saturation, value)] triple each colour method hands to
    [colorsys.hsv_to_rgb]. *)
Definition snake_hsv (self : t) (now : R) : result (R * R * R) :=
  hue <- get_master_hue self now ;;
  Ok (hue, 0.8, 0.9).

Definition apple_hsv (self : t) (now : R) : result (R * R * R) :=
  m <- get_master_hue self now ;;
  let hue := float_mod (m + 0.333) 1 in
  Ok (hue, 0.9, 0.95).

Definition grid_hsv (self : t) (now : R) : result (R * R * R) :=
  hue <- get_master_hue self now ;;
  Ok (hue, 0.3, 0.5).

Definition ui_hsv (self : t) (now : R) : result (R * R * R) :=
  hue <- get_master_hue self now ;;
  Ok (hue, 0.2, 0.95).

Definition hue_of (hsv : R * R * R) : R := fst (fst hsv).

Definition snake_hue (self : t) (now : R) : result R :=
  fmap hue_of (snake_hsv self now).

Definition apple_hue (self : t) (now : R) : result R :=
  fmap hue_of (apple_hsv self now).

Section Colours.

(** [colorsys.hsv_to_rgb] belongs to the Python standard library. *)
Variable hsv_to_rgb : R -> R -> R -> R * R * R.

Definition to_rgb255 (hsv : R * R * R) : Z * Z * Z :=
  let '(h, s, v) := hsv in
  let '(r, g, b) := hsv_to_rgb h s v in
  (py_int (r * 255), py_int (g * 255), py_int (b * 255)).

Definition get_snake_color (self : t) (now : R) : result (Z * Z * Z) :=
  fmap to_rgb255 (snake_hsv self now).

Definition get_apple_color (self : t) (now : R) : result (Z * Z * Z) :=
  fmap to_rgb255 (apple_hsv self now).

Definition get_grid_color (self : t) (now : R) : result (Z * Z * Z) :=
  fmap to_rgb255 (grid_hsv self now).

Definition get_ui_color (self : t) (now : R) : result (Z * Z * Z) :=
  fmap to_rgb255 (ui_hsv self now).

End Colours.

End ColorEvolution.

(** ** Three-way results

    A call that loops can return, raise, or still be looping when the
    model's budget (loop fuel, or the finite prefix of random draws it was
    given) is used up. *)

Inductive outcome (E A : Type) : Type :=
| Finished (a : A)
| Threw (e : E)
| Unfinished.

Arguments Finished {E A} a.
Arguments Threw {E A} e.
Arguments Unfinished {E A}.

(** ** The [render] methods of the two solids *)

Module Render.

Definition color : Type := (Z * Z * Z)%type.

(** What a surface has received, oldest call first: [pygame.draw.aaline]
    and [pygame.draw.line]. *)
Inductive draw_cmd : Type :=
| AALine (c : color) (p1 p2 : Point2)
| Line (c : color) (p1 p2 : Point2) (width : Z).

Definition surface : Type := list draw_cmd.

Inductive render_exn : Type :=
| Arithmetic (e : exn)
| IndexError.

(** The loop over the edge list.  An exception leaves on the surface what
    was drawn before it; the result is the surface and the exception, if
    any. *)
Fixpoint draw_edges (vertices_2d : list Point2) (edges : list Wire.edge)
    (c : color) (line_width : Z) (s : surface) : surface * option render_exn :=
  match edges with
  | [] => (s, None)
  | (v1_idx, v2_idx) :: rest =>
      match nth_error vertices_2d v1_idx with
      | None => (s, Some IndexError)
      | Some p1 =>
          match nth_error vertices_2d v2_idx with
          | None => (s, Some IndexError)
          | Some p2 =>
              let cmd := if Z.eqb line_width 1
                         then AALine c p1 p2
                         else Line c p1 p2 line_width in
              draw_edges vertices_2d rest c line_width (s ++ [cmd])
          end
      end
  end.

(** The body shared, word for word, by [WireframeCube.render] and
    [LowPolySphere.render]. *)
Definition render_solid (vertices_3d : list Point3) (edges : list Wire.edge)
    (s : surface) (camera : PerspectiveCamera.t) (c : color) (line_width : Z)
    : surface * option render_exn :=
  match PerspectiveCamera.project_points camera vertices_3d with
  | Raise e => (s, Some (Arithmetic e))
  | Ok vertices_2d => draw_edges vertices_2d edges c line_width s
  end.

Definition default_line_width : Z := 2.

Definition WireframeCube_render (self : WireframeCube.t) (s : surface)
    (camera : PerspectiveCamera.t) (c : color) (line_width : Z)
    : surface * option render_exn :=
  render_solid (WireframeCube.vertices_3d self) WireframeCube.EDGES
               s camera c line_width.

Definition LowPolySphere_render (self : LowPolySphere.t) (s : surface)
    (camera : PerspectiveCamera.t) (c : color) (line_width : Z)
    : surface * option render_exn :=
  render_solid (LowPolySphere.vertices_3d self) (LowPolySphere.edges self)
               s camera c line_width.

(** Every index of an edge list is below [n]. *)
Definition edges_below (n : nat) (edges : list Wire.edge) : bool :=
  forallb (fun e : Wire.edge => Nat.ltb (fst e) n && Nat.ltb (snd e) n) edges.

(** The call one edge gives rise to, once its endpoints are projected. *)
Definition edge_cmd (vertices_2d : list Point2) (c : color) (line_width : Z)
    (e : Wire.edge) : draw_cmd :=
  let p1 := nth (fst e) vertices_2d (0, 0) in
  let p2 := nth (snd e) vertices_2d (0, 0) in
  if Z.eqb line_width 1 then AALine c p1 p2 else Line c p1 p2 line_width.

End Render.

(** ** main.py: constants, [Direction], [Snake] *)

Module Const.

Definition SCREEN_WIDTH : Z := 800.
Definition SCREEN_HEIGHT : Z := 600.
Definition GRID_WIDTH : Z := 20.
Definition GRID_HEIGHT : Z := 15.
Definition CELL_SIZE : Z := 40.
Definition CUBE_SIZE : R := 20.
Definition CUBE_LINE_WIDTH : Z := 2.
Definition STARTING_SPEED : Z := 8.
Definition SPEED_INCREMENT : Z := 1.
Definition SPEED_TRIGGER : Z := 5.
Definition MAX_SPEED : Z := 20.
Definition STARTING_LENGTH : Z := 3.
Definition STARTING_POS : Z * Z := (10, 7)%Z.

End Const.

Module Direction.

Inductive t : Type := UP | DOWN | LEFT | RIGHT.

Definition value (d : t) : Z * Z :=
  match d with
  | UP => (0, -1)
  | DOWN => (0, 1)
  | LEFT => (-1, 0)
  | RIGHT => (1, 0)
  end%Z.

Definition opposite (d : t) : t :=
  match d with
  | UP => DOWN
  | DOWN => UP
  | LEFT => RIGHT
  | RIGHT => LEFT
  end.

Definition eqb (a b : t) : bool :=
  match a, b with
  | UP, UP | DOWN, DOWN | LEFT, LEFT | RIGHT, RIGHT => true
  | _, _ => false
  end.

End Direction.

Module Snake.
Import Const.

Definition cell : Type := (Z * Z)%type.

Definition cell_eqb (a b : cell) : bool :=
  Z.eqb (fst a) (fst b) && Z.eqb (snd a) (snd b).

(** [c in cells]. *)
Definition cell_in (c : cell) (cells : list cell) : bool :=
  existsb (cell_eqb c) cells.

Record t : Type := mk {
  camera : PerspectiveCamera.t;
  body : list cell;
  direction : Direction.t;
  next_direction : Direction.t;
  grow_pending : Z;
  cubes : list WireframeCube.t
}.

Definition _create_cube_for_cell (grid_pos : cell) : WireframeCube.t :=
  let (x, y) := grid_pos in
  let world_x := IZR (x * CELL_SIZE) + IZR CELL_SIZE / 2 in
  let world_y := IZR (y * CELL_SIZE) + IZR CELL_SIZE / 2 in
  let world_z := 0 in
  WireframeCube.init (world_x, world_y, world_z) CUBE_SIZE.

Definition reset (self : t) : t :=
  let (start_x, start_y) := STARTING_POS in
  let body :=
    map (fun i : nat => (start_x - Z.of_nat i, start_y)%Z)
        (seq 0 (Z.to_nat STARTING_LENGTH)) in
  mk (camera self) body Direction.RIGHT Direction.RIGHT 0
     (map _create_cube_for_cell body).

(** [__init__]: stores the camera, then [reset] assigns everything else. *)
Definition init (camera : PerspectiveCamera.t) : t :=
  reset (mk camera [] Direction.RIGHT Direction.RIGHT 0 []).

Definition set_direction (self : t) (new_direction : Direction.t) : t :=
  if negb (Direction.eqb new_direction (Direction.opposite (direction self)))
  then mk (camera self) (body self) (direction self) new_direction
          (grow_pending self) (cubes self)
  else self.

(** [None] is the [IndexError] of [self.body[0]] on an empty body. *)
Definition move (self : t) : option t :=
  let direction' := next_direction self in
  match body self with
  | [] => None
  | (head_x, head_y) :: _ =>
      let (dx, dy) := Direction.value direction' in
      let new_head := (head_x + dx, head_y + dy)%Z in
      let inserted := new_head :: body self in
      let body' := if (grow_pending self >? 0)%Z then inserted
                   else removelast inserted in
      let grow_pending' := if (grow_pending self >? 0)%Z
                           then (grow_pending self - 1)%Z
                           else grow_pending self in
      Some (mk (camera self) body' direction' (next_direction self)
               grow_pending' (map _create_cube_for_cell body'))
  end.

Definition grow (self : t) : t :=
  mk (camera self) (body self) (direction self) (next_direction self)
     (grow_pending self + 1)%Z (cubes self).

(** [None] is the [IndexError] of [self.body[0]] on an empty body. *)
Definition check_collision (self : t) : option bool :=
  match body self with
  | [] => None
  | head :: rest =>
      if ((fst head <? 0) || (fst head >=? GRID_WIDTH)
          || (snd head <? 0) || (snd head >=? GRID_HEIGHT))%Z
      then Some true
      else if cell_in head rest then Some true
      else Some false
  end.

(** The loop of [render]: one cube after the other, until one raises. *)
Fixpoint render_cubes (cubes : list WireframeCube.t) (s : Render.surface)
    (camera : PerspectiveCamera.t) (c : Render.color)
    : Render.surface * option Render.render_exn :=
  match cubes with
  | [] => (s, None)
  | cube :: rest =>
      match Render.WireframeCube_render cube s camera c CUBE_LINE_WIDTH with
      | (s', None) => render_cubes rest s' camera c
      | (s', Some e) => (s', Some e)
      end
  end.

Definition render (self : t) (s : Render.surface) (c : Render.color)
    : Render.surface * option Render.render_exn :=
  render_cubes (cubes self) s (camera self) c.

(** The calls the game makes on a snake between two resets. *)
Inductive call : Type :=
| SetDirection (new_direction : Direction.t)
| Move
| Grow.

Definition step (self : t) (c : call) : option t :=
  match c with
  | SetDirection d => Some (set_direction self d)
  | Move => move self
  | Grow => Some (grow self)
  end.

Fixpoint steps (self : t) (calls : list call) : option t :=
  match calls with
  | [] => Some self
  | c :: rest =>
      match step self c with
      | None => None
      | Some self' => steps self' rest
      end
  end.

(** Two cells are neighbours when they differ by the value of a
    direction. *)
Definition adjacent (a b : cell) : Prop :=
  exists d : Direction.t,
    a = (fst b + fst (Direction.value d), snd b + snd (Direction.value d))%Z.

(** Every segment is a neighbour of the one behind it. *)
Fixpoint connected (cells : list cell) : Prop :=
  match cells with
  | a :: (b :: _) as rest => adjacent a b /\ connected rest
  | _ => True
  end.

Definition in_grid (c : cell) : Prop :=
  (0 <= fst c < GRID_WIDTH /\ 0 <= snd c < GRID_HEIGHT)%Z.

(** Number of [Grow] calls in a list of calls. *)
Definition grows (calls : list call) : Z :=
  Z.of_nat (length (filter (fun c => match c with Grow => true | _ => false end) calls)).

End Snake.

(** ** main.py: class [Game] *)

Module Game.
Import Const.

Inductive GameState : Type := MENU | PLAYING | PAUSED | GAME_OVER.

Definition state_eqb (a b : GameState) : bool :=
  match a, b with
  | MENU, MENU | PLAYING, PLAYING | PAUSED, PAUSED | GAME_OVER, GAME_OVER => true
  | _, _ => false
  end.

(** What [load_high_score] can tell apart about [highscore.json]: no such
    file; a file that cannot be read as a JSON object (the bare [except]
    catches whatever goes wrong); a JSON object, with its integer
    ["high_score"] entry if it has one.  [save_high_score] also writes a
    ["date"] entry, which nothing reads back. *)
Inductive highscore_file : Type :=
| Missing
| Unreadable
| Stored (high_score : option Z).

Record t : Type := mk {
  camera : PerspectiveCamera.t;
  color_system : ColorEvolution.t;
  snake : Snake.t;
  state : GameState;
  score : Z;
  high_score : Z;
  speed : Z;
  move_timer : R;
  apple_pos : option Snake.cell;
  apple_sphere : option LowPolySphere.t;
  file : highscore_file
}.

Inductive game_exn : Type :=
| DivisionByZero
| BodyIndexError.

(** Results carry the random draws not yet consumed. *)
Definition run (A : Type) : Type := outcome game_exn (A * list Z).

(** [random.randint(a, b)], as a function of the next raw draw of the
    generator: a value between [a] and [b], both included. *)
Definition randint (a b : Z) (draw : Z) : Z := (a + draw mod (b - a + 1))%Z.

Definition load_high_score (f : highscore_file) : Z :=
  match f with
  | Missing => 0
  | Unreadable => 0
  | Stored None => 0
  | Stored (Some h) => h
  end%Z.

Definition save_high_score (self : t) : t :=
  mk (camera self) (color_system self) (snake self) (state self) (score self)
     (high_score self) (speed self) (move_timer self) (apple_pos self)
     (apple_sphere self) (Stored (Some (high_score self))).

Definition place_apple (self : t) (x y : Z) : t :=
  let world_x := IZR (x * CELL_SIZE) + IZR CELL_SIZE / 2 in
  let world_y := IZR (y * CELL_SIZE) + IZR CELL_SIZE / 2 in
  let world_z := 0 in
  mk (camera self) (color_system self) (snake self) (state self) (score self)
     (high_score self) (speed self) (move_timer self) (Some (x, y))
     (Some (LowPolySphere.init (world_x, world_y, world_z) (CUBE_SIZE * 0.8)))
     (file self).

(** The [while True] loop: two draws per round, until a cell off the
    snake comes up. *)
Fixpoint spawn_apple (self : t) (draws : list Z) : run t :=
  match draws with
  | draw_x :: draw_y :: rest =>
      let x := randint 0 (GRID_WIDTH - 1) draw_x in
      let y := randint 0 (GRID_HEIGHT - 1) draw_y in
      if negb (Snake.cell_in (x, y) (Snake.body (snake self)))
      then Finished (place_apple self x y, rest)
      else spawn_apple self rest
  | _ => Unfinished
  end.

(** [__init__], after the window and fonts are set up.  [now] is the
    clock reading [ColorEvolution()] stores. *)
Definition init (f : highscore_file) (now : R) (draws : list Z) : run t :=
  let camera := PerspectiveCamera.make SCREEN_WIDTH SCREEN_HEIGHT in
  let color_system := ColorEvolution.init ColorEvolution.default_cycle_duration now in
  let snake := Snake.init camera in
  spawn_apple
    (mk camera color_system snake MENU 0 (load_high_score f) STARTING_SPEED 0
        None None f)
    draws.

Definition start_game (self : t) (draws : list Z) : run t :=
  spawn_apple
    (mk (camera self) (color_system self) (Snake.reset (snake self)) PLAYING 0
        (high_score self) STARTING_SPEED 0 (apple_pos self) (apple_sphere self)
        (file self))
    draws.

Definition game_over (self : t) : t :=
  mk (camera self) (color_system self) (snake self) GAME_OVER (score self)
     (high_score self) (speed self) (move_timer self) (apple_pos self)
     (apple_sphere self) (file self).

(** [self.snake.body[0] == self.apple_pos]; an apple position of [None]
    equals no cell. *)
Definition head_on_apple (head : Snake.cell) (apple_pos : option Snake.cell) : bool :=
  match apple_pos with
  | Some a => Snake.cell_eqb head a
  | None => false
  end.

(** The branch of [update] taken when the head reaches the apple. *)
Definition collect_apple (self : t) (draws : list Z) : run t :=
  let snake' := Snake.grow (snake self) in
  let score' := (score self + 1)%Z in
  let self1 :=
    mk (camera self) (color_system self) snake' (state self) score'
       (high_score self) (speed self) (move_timer self) (apple_pos self)
       (apple_sphere self) (file self) in
  let self2 :=
    if (score self1 >? high_score self1)%Z
    then save_high_score
           (mk (camera self1) (color_system self1) (snake self1) (state self1)
               (score self1) (score self1) (speed self1) (move_timer self1)
               (apple_pos self1) (apple_sphere self1) (file self1))
    else self1 in
  let self3 :=
    if ((score self2 mod SPEED_TRIGGER =? 0) && (speed self2 <? MAX_SPEED))%Z
    then mk (camera self2) (color_system self2) (snake self2) (state self2)
            (score self2) (high_score self2) (speed self2 + SPEED_INCREMENT)%Z
            (move_timer self2) (apple_pos self2) (apple_sphere self2) (file self2)
    else self2 in
  spawn_apple self3 draws.

Definition update (self : t) (dt : R) (draws : list Z) : run t :=
  if negb (state_eqb (state self) PLAYING) then Finished (self, draws)
  else
    let apple_sphere' :=
      match apple_sphere self with
      | Some sphere => Some (LowPolySphere.update sphere dt)
      | None => None
      end in
    let move_timer' := move_timer self + dt in
    match py_div 1 (IZR (speed self)) with
    | Raise _ => Threw DivisionByZero
    | Ok move_interval =>
        if Rge_dec move_timer' move_interval then
          match Snake.move (snake self) with
          | None => Threw BodyIndexError
          | Some snake' =>
              let self1 :=
                mk (camera self) (color_system self) snake' (state self)
                   (score self) (high_score self) (speed self) 0
                   (apple_pos self) apple_sphere' (file self) in
              match Snake.check_collision snake' with
              | None => Threw BodyIndexError
              | Some true => Finished (game_over self1, draws)
              | Some false =>
                  match Snake.body snake' with
                  | [] => Threw BodyIndexError
                  | head :: _ =>
                      if head_on_apple head (apple_pos self1)
                      then collect_apple self1 draws
                      else Finished (self1, draws)
                  end
              end
          end
        else
          Finished
            (mk (camera self) (color_system self) (snake self) (state self)
                (score self) (high_score self) (speed self) move_timer'
                (apple_pos self) apple_sphere' (file self),
             draws)
    end.

(** The keys [handle_input] looks at; every other key is [K_other]. *)
Inductive key : Type :=
| K_q | K_SPACE | K_ESCAPE | K_p
| K_UP | K_w | K_DOWN | K_s | K_LEFT | K_a | K_RIGHT | K_d
| K_other.

Inductive event : Type :=
| QUIT
| KEYDOWN (k : key)
| OtherEvent.

Definition with_state (self : t) (st : GameState) : t :=
  mk (camera self) (color_system self) (snake self) st (score self)
     (high_score self) (speed self) (move_timer self) (apple_pos self)
     (apple_sphere self) (file self).

Definition with_snake (self : t) (sn : Snake.t) : t :=
  mk (camera self) (color_system self) sn (state self) (score self)
     (high_score self) (speed self) (move_timer self) (apple_pos self)
     (apple_sphere self) (file self).

(** The state-specific part of the handling of one key press. *)
Definition on_key (self : t) (k : key) (draws : list Z) : run t :=
  match state self with
  | MENU =>
      match k with
      | K_SPACE => start_game self draws
      | _ => Finished (self, draws)
      end
  | PLAYING =>
      match k with
      | K_UP | K_w =>
          Finished (with_snake self (Snake.set_direction (snake self) Direction.UP), draws)
      | K_DOWN | K_s =>
          Finished (with_snake self (Snake.set_direction (snake self) Direction.DOWN), draws)
      | K_LEFT | K_a =>
          Finished (with_snake self (Snake.set_direction (snake self) Direction.LEFT), draws)
      | K_RIGHT | K_d =>
          Finished (with_snake self (Snake.set_direction (snake self) Direction.RIGHT), draws)
      | K_ESCAPE | K_p => Finished (with_state self PAUSED, draws)
      | _ => Finished (self, draws)
      end
  | PAUSED =>
      match k with
      | K_ESCAPE => Finished (with_state self PLAYING, draws)
      | _ => Finished (self, draws)
      end
  | GAME_OVER =>
      match k with
      | K_SPACE => start_game self draws
      | _ => Finished (self, draws)
      end
  end.

(** The loop over [pygame.event.get()]; the boolean is the return value. *)
Fixpoint handle_input (self : t) (events : list event) (draws : list Z)
    : run (t * bool) :=
  match events with
  | [] => Finished ((self, true), draws)
  | QUIT :: _ => Finished ((self, false), draws)
  | KEYDOWN K_q :: _ => Finished ((self, false), draws)
  | KEYDOWN k :: rest =>
      match on_key self k draws with
      | Finished (self', draws') => handle_input self' rest draws'
      | Threw e => Threw e
      | Unfinished => Unfinished
      end
  | OtherEvent :: rest => handle_input self rest draws
  end.

(** The games a session can be in: the constructed one, and whatever
    [handle_input] and [update] make of it. *)
Inductive reachable : t -> Prop :=
| reach_init (f : highscore_file) (now : R) (draws rest : list Z) (g : t) :
    init f now draws = Finished (g, rest) -> reachable g
| reach_input (g g' : t) (events : list event) (draws rest : list Z) (running : bool) :
    reachable g ->
    handle_input g events draws = Finished ((g', running), rest) ->
    reachable g'
| reach_update (g g' : t) (dt : R) (draws rest : list Z) :
    reachable g ->
    update g dt draws = Finished (g', rest) ->
    reachable g'.

(** The [while] loop of [_draw_dashed_line].  [current_pos] stays an
    integer: it starts at 0 and grows by the integer pattern length. *)
Fixpoint dash_loop (fuel : nat) (x1 y1 dx dy line_length : R)
    (dash_length pattern_length : Z) (c : Render.color)
    (current_pos : Z) (screen : Render.surface) : option Render.surface :=
  if Rlt_dec (IZR current_pos) line_length then
    match fuel with
    | O => None
    | S fuel' =>
        let dash_start_x := x1 + dx * IZR current_pos in
        let dash_start_y := y1 + dy * IZR current_pos in
        let dash_end_pos := Rmin (IZR (current_pos + dash_length)) line_length in
        let dash_end_x := x1 + dx * dash_end_pos in
        let dash_end_y := y1 + dy * dash_end_pos in
        dash_loop fuel' x1 y1 dx dy line_length dash_length pattern_length c
          (current_pos + pattern_length)%Z
          (screen ++ [Render.Line c
                        (IZR (py_int dash_start_x), IZR (py_int dash_start_y))
                        (IZR (py_int dash_end_x), IZR (py_int dash_end_y))
                        1])
    end
  else Some screen.

(** [None]: the loop is still running when the fuel is used up. *)
Definition _draw_dashed_line (fuel : nat) (screen : Render.surface)
    (start end_ : Point2) (c : Render.color) (dash_length gap_length : Z)
    : option Render.surface :=
  let (x1, y1) := start in
  let (x2, y2) := end_ in
  let dx := x2 - x1 in
  let dy := y2 - y1 in
  let line_length := sqrt (dx * dx + dy * dy) in
  if Req_dec_T line_length 0 then Some screen
  else
    let dx := dx / line_length in
    let dy := dy / line_length in
    let pattern_length := (dash_length + gap_length)%Z in
    dash_loop fuel x1 y1 dx dy line_length dash_length pattern_length c 0 screen.

End Game.

(** ** Ranges of colour channels *)

Module Channels.

(** All three channels between 0 and 1, as [colorsys] documents its
    results. *)
Definition unit_rgb (rgb : R * R * R) : Prop :=
  let '(r, g, b) := rgb in 0 <= r <= 1 /\ 0 <= g <= 1 /\ 0 <= b <= 1.

(** All three channels between 0 and 255. *)
Definition byte_rgb (rgb : Z * Z * Z) : Prop :=
  let '(r, g, b) := rgb in (0 <= r <= 255 /\ 0 <= g <= 255 /\ 0 <= b <= 255)%Z.

(** [hsv_to_rgb] keeps its promise on hues in [[0, 1)] and saturations
    and values in [[0, 1]]. *)
Definition well_behaved (hsv_to_rgb : R -> R -> R -> R * R * R) : Prop :=
  forall h s v : R,
    0 <= h < 1 -> 0 <= s <= 1 -> 0 <= v <= 1 -> unit_rgb (hsv_to_rgb h s v).

(** The branch of [colorsys.hsv_to_rgb] for a saturation of zero: grey of
    the given value. *)
Definition grey (h s v : R) : R * R * R := (v, v, v).

End Channels.

(** ** What holds of every snake *)

Module SnakeInv.
Import Snake.

(** The head is one step of the current direction ahead of the segment
    behind it. *)
Definition head_leads (self : t) : Prop :=
  match body self with
  | h :: n :: _ =>
      h = (fst n + fst (Direction.value (direction self)),
           snd n + snd (Direction.value (direction self)))%Z
  | _ => True
  end.

(** [grown] is the number of [grow] calls since the last reset. *)
Record holds (self : t) (grown : Z) : Prop := {
  long_enough : (3 <= length (body self))%nat;
  no_reversal : next_direction self <> Direction.opposite (direction self);
  body_connected : connected (body self);
  head_first : head_leads self;
  pending_nonneg : (0 <= grow_pending self)%Z;
  cubes_in_sync : cubes self = map _create_cube_for_cell (body self);
  length_accounted :
    (Z.of_nat (length (body self)) + grow_pending self
     = Const.STARTING_LENGTH + grown)%Z
}.

End SnakeInv.

Module Grid.

(** Number of unit steps between two cells. *)
Definition manhattan (a b : Snake.cell) : Z :=
  (Z.abs (fst a - fst b) + Z.abs (snd a - snd b))%Z.

End Grid.

(** ** What holds of every game *)

Module GameInv.
Import Const Game.

(** World position of the centre of a grid cell, on the plane [z = 0]. *)
Definition cell_centre (a : Snake.cell) : Point3 :=
  (IZR (fst a * CELL_SIZE) + IZR CELL_SIZE / 2,
   IZR (snd a * CELL_SIZE) + IZR CELL_SIZE / 2,
   0).

(** Everything but the apple. *)
Record core (g : t) : Prop := {
  snake_inv : SnakeInv.holds (snake g) (score g);
  pending_small : (Snake.grow_pending (snake g) <= 1)%Z;
  score_nonneg : (0 <= score g)%Z;
  speed_formula :
    speed g = Z.min MAX_SPEED (STARTING_SPEED + score g / SPEED_TRIGGER);
  high_score_saved : load_high_score (file g) = high_score g;
  high_score_bound : score g = 0%Z \/ (score g <= high_score g)%Z;
  body_clear :
    state g <> GAME_OVER ->
    NoDup (Snake.body (snake g)) /\ Forall Snake.in_grid (Snake.body (snake g));
  timer_short : move_timer g < 1 / IZR (speed g);
  over_means_hit :
    state g = GAME_OVER -> Snake.check_collision (snake g) = Some true;
  cameras :
    camera g = PerspectiveCamera.make SCREEN_WIDTH SCREEN_HEIGHT
    /\ Snake.camera (snake g) = camera g
}.

(** The apple lies on a free cell of the grid, and its sphere is the one
    constructed at the centre of that cell, with radius [CUBE_SIZE * 0.8],
    and turned since. *)
Definition apple_ok (g : t) : Prop :=
  exists (a : Snake.cell) (turns : list R),
    apple_pos g = Some a
    /\ Snake.in_grid a
    /\ Snake.cell_in a (Snake.body (snake g)) = false
    /\ apple_sphere g
       = Some (LowPolySphere.after_calls (cell_centre a) (CUBE_SIZE * 0.8)
                 (map LowPolySphere.Update turns)).

Definition holds (g : t) : Prop := core g /\ apple_ok g.

(** Every cell of the grid, column by column. *)
Definition all_cells : list Snake.cell :=
  list_prod (map Z.of_nat (seq 0 (Z.to_nat GRID_WIDTH)))
            (map Z.of_nat (seq 0 (Z.to_nat GRID_HEIGHT))).

(** The draws taken two by two, as [spawn_apple] reads them, each pair
    turned into the cell it stands for. *)
Fixpoint drawn_cells (draws : list Z) : list Snake.cell :=
  match draws with
  | draw_x :: draw_y :: rest =>
      (randint 0 (GRID_WIDTH - 1) draw_x, randint 0 (GRID_HEIGHT - 1) draw_y)
      :: drawn_cells rest
  | _ => []
  end.

End GameInv.

Module Collect.
Import Const Game.

(** The game [collect_apple] hands to [spawn_apple]: one more segment
    pending, one more point, the high score and the speed brought up to
    date. *)
Definition collected (self : t) : t :=
  let self1 :=
    mk (camera self) (color_system self) (Snake.grow (snake self)) (state self)
       (score self + 1)%Z (high_score self) (speed self) (move_timer self)
       (apple_pos self) (apple_sphere self) (file self) in
  let self2 :=
    if (score self1 >? high_score self1)%Z
    then save_high_score
           (mk (camera self1) (color_system self1) (snake self1) (state self1)
               (score self1) (score self1) (speed self1) (move_timer self1)
               (apple_pos self1) (apple_sphere self1) (file self1))
    else self1 in
  if ((score self2 mod SPEED_TRIGGER =? 0) && (speed self2 <? MAX_SPEED))%Z
  then mk (camera self2) (color_system self2) (snake self2) (state self2)
          (score self2) (high_score self2) (speed self2 + SPEED_INCREMENT)%Z
          (move_timer self2) (apple_pos self2) (apple_sphere self2) (file self2)
  else self2.

(** A result is sound when nothing was raised and the game returned, if
    any, is a good one. *)
Definition sound {A : Type} (good : A -> Prop) (r : run A) : Prop :=
  match r with
  | Finished (a, _) => good a
  | Threw _ => False
  | Unfinished => True
  end.

End Collect.

(** ** The dashes of a dashed line, in closed form *)

Module Dashes.

(** Dash number [k], counted from 0: it starts [k] pattern lengths from
    the start of the line and ends a dash length later, or at the end of
    the line if that comes first.  [dx], [dy] is the unit direction. *)
Definition dash_at (x1 y1 dx dy line_length : R) (dash_length pattern_length : Z)
    (c : Render.color) (k : nat) : Render.draw_cmd :=
  let pos := (Z.of_nat k * pattern_length)%Z in
  let stop := Rmin (IZR (pos + dash_length)) line_length in
  Render.Line c
    (IZR (py_int (x1 + dx * IZR pos)), IZR (py_int (y1 + dy * IZR pos)))
    (IZR (py_int (x1 + dx * stop)), IZR (py_int (y1 + dy * stop)))
    1.

(** Number of dashes that start before the end of a line. *)
Definition count (line_length : R) (pattern_length : Z) : nat :=
  Z.to_nat (Zceil (line_length / IZR pattern_length)).

End Dashes.

Module Events.

(** The two events that make [handle_input] return [False]. *)
Definition is_quit (ev : Game.event) : bool :=
  match ev with
  | Game.QUIT => true
  | Game.KEYDOWN Game.K_q => true
  | _ => false
  end.

End Events.

(** ** The same arithmetic in binary64

    What the interpreter computes: a Python [float] is an IEEE 754
    binary64 number and every [+ - * /] rounds to nearest, ties to even.
    The primitive floats of the kernel are that format with those
    operations.  The definitions below are the float-valued parts of the
    classes above, read this way; they are the ones to run when the
    question is what the program returns for given floats. *)

Module Binary64.
Import PrimFloat SpecFloat.
Local Open Scope float_scope.

Definition Point2 : Set := float * float.
Definition Point3 : Set := float * float * float.

(** An [int] meeting a float in an operation is converted first.  The
    conversion is exact for integers of size below [2 ^ 53], which covers
    the program's constants and screen sizes. *)
Definition of_int (n : Z) : float :=
  FloatOps.SF2Prim
    match n with
    | Z0 => S754_zero false
    | Zpos p => S754_finite false p 0
    | Zneg p => S754_finite true p 0
    end.

(** [a / b]: raises when the divisor compares equal to zero, of either
    sign. *)
Definition py_div (a b : float) : result float :=
  if b =? 0 then Raise ZeroDivisionError else Ok (a / b).

(** The number [+- r * 2 ^ e], for [0 <= r < 2 ^ 53]. *)
Definition scaled (negative : bool) (r e : Z) : float :=
  FloatOps.SF2Prim
    match r with
    | Zpos p => S754_finite negative p e
    | _ => S754_zero negative
    end.

(** C's [fmod], which the interpreter calls for [%]: the remainder of the
    division truncated toward zero.  It has the sign of [x] and is exact:
    with both numbers written over the smaller of the two exponents it is
    a remainder of integers. *)
Definition fmod (x y : float) : float :=
  match FloatOps.Prim2SF x, FloatOps.Prim2SF y with
  | S754_nan, _ | _, S754_nan => nan
  | S754_infinity _, _ => nan
  | _, S754_zero _ => nan
  | _, S754_infinity _ => x
  | S754_zero _, S754_finite _ _ _ => x
  | S754_finite sx mx ex, S754_finite _ my ey =>
      let e := Z.min ex ey in
      scaled sx (Z.rem (Z.pos mx * 2 ^ (ex - e)) (Z.pos my * 2 ^ (ey - e))) e
  end.

(** [v % w] for a modulus [w] that is not zero: [fmod], then a remainder
    whose sign differs from the sign of [w] has [w] added to it, and this
    addition rounds.  A remainder of zero takes the sign of [w]. *)
Definition float_mod (v w : float) : float :=
  let m := fmod v w in
  if m =? 0 then (if w <? 0 then - 0 else 0)
  else if Bool.eqb (w <? 0) (m <? 0) then m
  else m + w.

(** The value of a finite float, counted in units of [2 ^ -1074], the
    spacing of the smallest floats: an integer, and no two finite floats
    other than the two zeros have the same.  Used to compare exact sums
    and differences of floats. *)
Definition units (f : float) : Z :=
  match FloatOps.Prim2SF f with
  | S754_finite s m e => (if s then Z.neg m else Z.pos m) * 2 ^ (e + 1074)
  | _ => 0
  end.

(** *** perspective.py *)

Module PerspectiveCamera.

Record t : Set := mk {
  screen_width : Z;
  screen_height : Z;
  vp_x : float;
  vp_y : float;
  perspective_strength : float
}.

Definition default_perspective_strength : float := 300.

Definition init (screen_width screen_height : Z)
    (vanishing_point_x vanishing_point_y : option float)
    (perspective_strength : float) : t :=
  {| screen_width := screen_width;
     screen_height := screen_height;
     vp_x := match vanishing_point_x with
             | Some v => v
             | None => of_int screen_width / 2
             end;
     vp_y := match vanishing_point_y with
             | Some v => v
             | None => of_int screen_height * 0.75
             end;
     perspective_strength := perspective_strength |}.

Definition make (screen_width screen_height : Z) : t :=
  init screen_width screen_height None None default_perspective_strength.

Definition project_3d_to_2d (self : t) (x y z : float) : result Point2 :=
  perspective_factor <-
    py_div (perspective_strength self) (perspective_strength self + z) ;;
  let screen_x := vp_x self + (x - vp_x self) * perspective_factor in
  let screen_y := vp_y self + (y - vp_y self) * perspective_factor in
  Ok (screen_x, screen_y).

End PerspectiveCamera.

(** *** wireframe_cube.py *)

Module WireframeCube.

Record t : Set := mk {
  position : Point3;
  size : float;
  vertices_3d : list Point3
}.

Definition UNIT_CUBE_VERTICES : list (Z * Z * Z) :=
  [ (-1, -1, -1);
    (1, -1, -1);
    (1, 1, -1);
    (-1, 1, -1);
    (-1, -1, 1);
    (1, -1, 1);
    (1, 1, 1);
    (-1, 1, 1) ]%Z.

Definition world_vertices_at (position : Point3) (size : float) : list Point3 :=
  let '(px, py, pz) := position in
  let half_size := size / 2 in
  map (fun v : Z * Z * Z =>
         let '(vx, vy, vz) := v in
         (px + of_int vx * half_size,
          py + of_int vy * half_size,
          pz + of_int vz * half_size))
      UNIT_CUBE_VERTICES.

Definition _calculate_world_vertices (self : t) : list Point3 :=
  world_vertices_at (position self) (size self).

Definition init (position_3d : Point3) (size : float) : t :=
  {| position := position_3d;
     size := size;
     vertices_3d := world_vertices_at position_3d size |}.

Definition update_position (self : t) (new_position : Point3) : t :=
  let self1 := {| position := new_position;
                  size := size self;
                  vertices_3d := vertices_3d self |} in
  {| position := position self1;
     size := size self1;
     vertices_3d := _calculate_world_vertices self1 |}.

End WireframeCube.

(** *** main.py, class LowPolySphere: the rotation angle

    The world vertices go through [math.cos] and [math.sin], which have no
    counterpart here; the angle needs [+], [*] and [%] only. *)

Module LowPolySphere.

Record t : Set := mk {
  rotation_angle : float;
  rotation_speed : float
}.

(** The two assignments of [__init__]. *)
Definition init : t := {| rotation_angle := 0; rotation_speed := 10 |}.

(** The first assignment of [update]. *)
Definition update (self : t) (dt : float) : t :=
  {| rotation_angle :=
       float_mod (rotation_angle self + rotation_speed self * dt) 360;
     rotation_speed := rotation_speed self |}.

End LowPolySphere.

(** *** color_system.py *)

Module ColorEvolution.

Record t : Set := mk {
  cycle_duration : float;
  start_time : float
}.

Definition init (cycle_duration : float) (now : float) : t :=
  {| cycle_duration := cycle_duration; start_time := now |}.

Definition get_master_hue (self : t) (now : float) : result float :=
  let elapsed := now - start_time self in
  q <- py_div elapsed (cycle_duration self) ;;
  Ok (float_mod q 1).

Section Colours.

(** What a colour method does with its hue, saturation and value once it
    has them: the call of [colorsys.hsv_to_rgb] and the three
    [int(c * 255)].  The outcome, a colour or an exception of the
    library, is a function of the three numbers. *)
Variable A : Type.
Variable to_rgb255 : float -> float -> float -> A.

Definition get_snake_color (self : t) (now : float) : result A :=
  hue <- get_master_hue self now ;;
  let saturation := 0.8 in
  let value := 0.9 in
  Ok (to_rgb255 hue saturation value).

Definition get_apple_color (self : t) (now : float) : result A :=
  m <- get_master_hue self now ;;
  let hue := float_mod (m + 0.333) 1 in
  let saturation := 0.9 in
  let value := 0.95 in
  Ok (to_rgb255 hue saturation value).

End Colours.

End ColorEvolution.

End Binary64.

(** * Theorems *)

(** ** Arithmetic of the model *)

Lemma py_div_ok (a b : R) : b <> 0 -> py_div a b = Ok (a / b).
Proof.
  intros Hb. unfold py_div.
  destruct (Req_dec_T b 0) as [E | _]; [contradiction | reflexivity].
Qed.

Lemma py_div_raise (a b : R) : b = 0 -> py_div a b = Raise ZeroDivisionError.
Proof.
  intros Hb. unfold py_div.
  destruct (Req_dec_T b 0) as [_ | N]; [reflexivity | contradiction].
Qed.

(** For a positive modulus the remainder lies in [[0, b)]. *)
Lemma float_mod_range (a b : R) : 0 < b -> 0 <= float_mod a b < b.
Proof.
  intros Hb. unfold float_mod.
  destruct (Zfloor_bound (a / b)) as [Hlo Hhi].
  assert (Ha : a = a / b * b) by (field; lra).
  split; nra.
Qed.

(** A value already in [[0, b)] is its own remainder. *)
Lemma float_mod_small (a b : R) : 0 <= a < b -> float_mod a b = a.
Proof.
  intros [H0 Hb]. unfold float_mod.
  assert (Hq : Zfloor (a / b) = 0%Z).
  { apply Zfloor_eq. simpl. split.
    - apply Rmult_le_pos; [lra |]. left. apply Rinv_0_lt_compat. lra.
    - apply (Rmult_lt_reg_r b); [lra |]. unfold Rdiv.
      rewrite Rmult_assoc, Rinv_l by lra. lra. }
  rewrite Hq. simpl. ring.
Qed.

Lemma sqrt_square_scaled (k d : R) : sqrt (k * k * d) = Rabs k * sqrt d.
Proof.
  destruct (Rle_dec 0 d) as [Hd | Hd].
  - rewrite sqrt_mult_alt by nra.
    replace (k * k) with (Rsqr k) by reflexivity.
    rewrite sqrt_Rsqr_abs. reflexivity.
  - assert (Hneg : d < 0) by lra.
    rewrite (sqrt_neg_0 d) by lra.
    rewrite sqrt_neg_0 by nra. ring.
Qed.

(** ** Perspective projector *)

Module PerspectiveFacts.
Import PerspectiveCamera.

Section Projector.

Variable self : t.

(** The value of the projection wherever the division is defined. *)
Lemma project_ok (x y z : R) :
  perspective_strength self + z <> 0 ->
  project_3d_to_2d self x y z =
    Ok (vp_x self + (x - vp_x self)
          * (perspective_strength self / (perspective_strength self + z)),
        vp_y self + (y - vp_y self)
          * (perspective_strength self / (perspective_strength self + z))).
Proof.
  intros Hd. unfold project_3d_to_2d. rewrite (py_div_ok _ _ Hd). reflexivity.
Qed.

(** The projection raises exactly on the plane [z = - perspective_strength]. *)
Lemma project_raises_iff (x y z : R) (e : exn) :
  project_3d_to_2d self x y z = Raise e <-> perspective_strength self + z = 0.
Proof.
  split.
  - intros H.
    destruct (Req_dec_T (perspective_strength self + z) 0) as [E | N]; [exact E |].
    rewrite (project_ok _ _ _ N) in H. discriminate H.
  - intros E. unfold project_3d_to_2d. rewrite (py_div_raise _ _ E).
    destruct e. reflexivity.
Qed.

(** Distance of a projected point from the vanishing point: the distance
    of the unprojected [(x, y)], scaled by the size of the factor. *)
Lemma projected_distance (x y f : R) :
  dist2 (vp_x self + (x - vp_x self) * f, vp_y self + (y - vp_y self) * f)
        (vp_x self, vp_y self)
  = Rabs f * dist2 (x, y) (vp_x self, vp_y self).
Proof.
  unfold dist2. rewrite <- sqrt_square_scaled. f_equal. ring.
Qed.

Lemma off_vanishing_point_positive (x y : R) :
  (x, y) <> (vp_x self, vp_y self) ->
  0 < dist2 (x, y) (vp_x self, vp_y self).
Proof.
  intros Hne. unfold dist2. apply sqrt_lt_R0.
  destruct (Req_dec_T x (vp_x self)) as [Ex | Nx].
  - destruct (Req_dec_T y (vp_y self)) as [Ey | Ny].
    + exfalso. apply Hne. rewrite Ex, Ey. reflexivity.
    + pose proof (Rsqr_pos_lt (y - vp_y self)) as Hy. unfold Rsqr in Hy.
      assert (Hy0 : y - vp_y self <> 0) by (intros E0; apply Ny; lra).
      specialize (Hy Hy0).
      pose proof (Rle_0_sqr (x - vp_x self)) as Hx. unfold Rsqr in Hx. lra.
  - pose proof (Rsqr_pos_lt (x - vp_x self)) as Hx. unfold Rsqr in Hx.
    assert (Hx0 : x - vp_x self <> 0) by (intros E0; apply Nx; lra).
    specialize (Hx Hx0).
    pose proof (Rle_0_sqr (y - vp_y self)) as Hy. unfold Rsqr in Hy. lra.
Qed.

(** In front of the camera plane the factor is positive and falls as the
    depth grows. *)
Lemma factor_decreasing (z1 z2 : R) :
  0 < perspective_strength self ->
  0 < perspective_strength self + z1 ->
  z1 < z2 ->
  0 < perspective_strength self / (perspective_strength self + z2)
    < perspective_strength self / (perspective_strength self + z1).
Proof.
  intros Hs H1 H12. split.
  - apply Rdiv_lt_0_compat; lra.
  - unfold Rdiv. apply Rmult_lt_compat_l; [exact Hs |].
    apply Rinv_lt_contravar; [apply Rmult_lt_0_compat; lra | lra].
Qed.

End Projector.

Lemma make_800_600 : make 800 600 = mk 800 600 400 450 300.
Proof.
  unfold make, init, default_perspective_strength. f_equal; lra.
Qed.

(** C9.  The vanishing point projects to itself at every depth at which
    the division is defined. *)
Theorem vanishing_point_fixed (self : t) (z : R) :
  perspective_strength self + z <> 0 ->
  project_3d_to_2d self (vp_x self) (vp_y self) z = Ok (vp_x self, vp_y self).
Proof.
  intros Hd. rewrite (project_ok _ _ _ _ Hd). f_equal. f_equal; ring.
Qed.

Lemma vanishing_point_fixed_witness :
  perspective_strength (make 800 600) + 100 <> 0
  /\ project_3d_to_2d (make 800 600) (vp_x (make 800 600)) (vp_y (make 800 600)) 100
     = Ok (vp_x (make 800 600), vp_y (make 800 600)).
Proof.
  assert (H : perspective_strength (make 800 600) + 100 <> 0).
  { unfold make, init, default_perspective_strength. simpl. lra. }
  split; [exact H |].
  exact (vanishing_point_fixed (make 800 600) 100 H).
Defined.

(** C4.  Under the precondition [perspective_strength + z > 0] the
    divisor is not zero and [project_3d_to_2d] returns a point: it is a
    function of the camera and the point alone, it changes nothing, and
    no exception is reachable. *)
Theorem project_3d_to_2d_total (self : t) (x y z : R) :
  0 < perspective_strength self + z ->
  perspective_strength self + z <> 0
  /\ (exists p : Point2, project_3d_to_2d self x y z = Ok p)
  /\ (forall e : exn, project_3d_to_2d self x y z <> Raise e).
Proof.
  intros Hpos.
  assert (Hd : perspective_strength self + z <> 0) by lra.
  split; [exact Hd |]. split.
  - eexists. apply project_ok. exact Hd.
  - intros e He. apply project_raises_iff in He. contradiction.
Qed.

Lemma project_3d_to_2d_total_witness :
  0 < perspective_strength (make 800 600) + -100
  /\ exists p : Point2, project_3d_to_2d (make 800 600) 400 300 (-100) = Ok p.
Proof.
  assert (H : 0 < perspective_strength (make 800 600) + -100).
  { unfold make, init, default_perspective_strength. simpl. lra. }
  split; [exact H |].
  exact (proj1 (proj2 (project_3d_to_2d_total (make 800 600) 400 300 (-100) H))).
Defined.

(** Whenever the projection does raise, the precondition was violated. *)
Lemma project_failure_is_misuse (self : t) (x y z : R) (e : exn) :
  project_3d_to_2d self x y z = Raise e -> perspective_strength self + z <= 0.
Proof.
  intros He. apply project_raises_iff in He. lra.
Qed.

(** Projection of one point given as a triple, as the comprehension of
    [project_points] unpacks it. *)
Lemma project_points_cons (self : t) (p : Point3) (rest : list Point3) :
  project_points self (p :: rest) =
    (q <- project_3d_to_2d self (fst (fst p)) (snd (fst p)) (snd p) ;;
     qs <- project_points self rest ;;
     Ok (q :: qs)).
Proof. destruct p as [[x y] z]. reflexivity. Qed.

Lemma project_points_ok_iff (self : t) (points_3d : list Point3) (out : list Point2) :
  project_points self points_3d = Ok out <->
  Forall2 (fun (p : Point3) (q : Point2) =>
             project_3d_to_2d self (fst (fst p)) (snd (fst p)) (snd p) = Ok q)
          points_3d out.
Proof.
  revert out. induction points_3d as [| p rest IH]; intros out.
  - simpl. split.
    + intros H. injection H as <-. constructor.
    + intros H. inversion H. reflexivity.
  - rewrite project_points_cons. split.
    + intros H.
      destruct (project_3d_to_2d self (fst (fst p)) (snd (fst p)) (snd p))
        as [q | e] eqn:Hq; simpl in H; [| discriminate H].
      destruct (project_points self rest) as [qs | e] eqn:Hqs; simpl in H;
        [| discriminate H].
      injection H as <-. constructor; [exact Hq |]. apply IH. reflexivity.
    + intros H. inversion H as [| p' q rest' qs Hq Hqs]; subst.
      rewrite Hq. simpl. apply IH in Hqs. rewrite Hqs. reflexivity.
Qed.

Lemma project_points_raise_iff (self : t) (points_3d : list Point3) (e : exn) :
  project_points self points_3d = Raise e <->
  Exists (fun p : Point3 =>
            project_3d_to_2d self (fst (fst p)) (snd (fst p)) (snd p) = Raise e)
         points_3d.
Proof.
  induction points_3d as [| p rest IH].
  - simpl. split; [discriminate | intros H; inversion H].
  - rewrite project_points_cons. split.
    + intros H.
      destruct (project_3d_to_2d self (fst (fst p)) (snd (fst p)) (snd p))
        as [q | e'] eqn:Hq; simpl in H.
      * destruct (project_points self rest) as [qs | e''] eqn:Hqs; simpl in H;
          [discriminate H |].
        apply Exists_cons_tl. apply IH. exact H.
      * apply Exists_cons_hd. rewrite Hq. destruct e, e'. reflexivity.
    + intros H.
      destruct (project_3d_to_2d self (fst (fst p)) (snd (fst p)) (snd p))
        as [q | e'] eqn:Hq; simpl.
      * inversion H as [p' l' Hp | p' l' Hrest]; subst.
        -- rewrite Hq in Hp. discriminate Hp.
        -- apply IH in Hrest. rewrite Hrest. reflexivity.
      * destruct e, e'. reflexivity.
Qed.

(** C7.  [project_points] returns exactly the list of the single-point
    projections, in order: its result has the length of its input and its
    i-th element is [project_3d_to_2d] of the i-th point.  It raises
    exactly when one of the single-point projections does. *)
Theorem project_points_elementwise (self : t) (points_3d : list Point3) :
  (forall out : list Point2,
     project_points self points_3d = Ok out <->
     length out = length points_3d /\
     forall i : nat, (i < length points_3d)%nat ->
       project_3d_to_2d self (fst (fst (nth i points_3d (0, 0, 0))))
                             (snd (fst (nth i points_3d (0, 0, 0))))
                             (snd (nth i points_3d (0, 0, 0)))
       = Ok (nth i out (0, 0)))
  /\ (forall e : exn,
        project_points self points_3d = Raise e <->
        Exists (fun p : Point3 =>
                  project_3d_to_2d self (fst (fst p)) (snd (fst p)) (snd p) = Raise e)
               points_3d)
  /\ (Forall (fun p : Point3 => perspective_strength self + snd p <> 0) points_3d <->
      exists out : list Point2, project_points self points_3d = Ok out).
Proof.
  split; [| split].
  - intros out. rewrite project_points_ok_iff. split.
    + intros H. split.
      * symmetry. eapply Forall2_length. exact H.
      * induction H as [| p q ps qs Hpq Hrest IH]; intros i Hi.
        -- simpl in Hi. lia.
        -- destruct i as [| i]; simpl; [exact Hpq |]. apply IH. simpl in Hi. lia.
    + revert out. induction points_3d as [| p ps IH]; intros out [Hlen Hnth].
      * destruct out; [constructor | discriminate Hlen].
      * destruct out as [| q qs]; [discriminate Hlen |]. constructor.
        -- apply (Hnth 0%nat). simpl. lia.
        -- apply IH. split; [simpl in Hlen; lia |].
           intros i Hi. apply (Hnth (S i)). simpl. lia.
  - intros e. apply project_points_raise_iff.
  - split.
    + intros Hall. induction Hall as [| p ps Hp Hps IH].
      * exists []. reflexivity.
      * destruct IH as [qs Hqs]. rewrite project_points_cons.
        rewrite (project_ok _ _ _ _ Hp). simpl. rewrite Hqs. simpl. eexists. reflexivity.
    + intros [out Hout]. apply project_points_ok_iff in Hout.
      induction Hout as [| p q ps qs Hpq Hrest IH]; constructor; [| exact IH].
      intros E.
      apply (project_raises_iff self (fst (fst p)) (snd (fst p)) _ ZeroDivisionError) in E.
      rewrite E in Hpq. discriminate Hpq.
Qed.

(** Two runs of the batch projection with [PerspectiveCamera(800, 600)]:
    one that returns, one that meets the camera plane at its second
    point. *)
Example project_points_run :
  project_points (make 800 600) [(400, 300, 0); (400, 300, 300)]
  = Ok [(400, 300); (400, 375)].
Proof.
  apply project_points_ok_iff. rewrite make_800_600.
  apply Forall2_cons; [| apply Forall2_cons; [| apply Forall2_nil]];
    (rewrite project_ok by (simpl; lra)); simpl; apply f_equal; apply f_equal2; field.
Qed.

Example project_points_raises :
  project_points (make 800 600) [(400, 300, 0); (0, 0, -300)]
  = Raise ZeroDivisionError.
Proof.
  apply project_points_raise_iff. rewrite make_800_600.
  apply Exists_cons_tl. apply Exists_cons_hd.
  apply project_raises_iff. simpl. lra.
Qed.

(** C3, as stated, fails at the vanishing point itself: with
    [PerspectiveCamera(800, 600)] (strength 300 > 0) the point
    [(400, 450)] projects to the vanishing point at depth 0 and at depth
    300 alike, so it does not move strictly closer. *)
Lemma convergence_not_strict_at_vanishing_point :
  0 < perspective_strength (make 800 600)
  /\ 0 < 300
  /\ ~ strictly_closer (make 800 600) 400 450 0 300.
Proof.
  rewrite make_800_600. simpl. split; [lra |]. split; [lra |].
  intros (p1 & p2 & H1 & H2 & Hlt).
  rewrite project_ok in H1 by (simpl; lra).
  rewrite project_ok in H2 by (simpl; lra).
  simpl in H1, H2. injection H1 as <-. injection H2 as <-.
  simpl in Hlt.
  match type of Hlt with
  | sqrt ?a < sqrt ?b =>
      replace a with 0 in Hlt by field; replace b with 0 in Hlt by field
  end.
  lra.
Qed.

(** Behind the camera plane the factor is negative and grows in size with
    the depth: from depth -900 to depth -400 the projection of
    [(400, 300)] moves away from the vanishing point (from distance 75 to
    distance 450). *)
Lemma divergence_behind_camera :
  ~ strictly_closer (make 800 600) 400 300 (-900) (-400).
Proof.
  rewrite make_800_600.
  intros (p1 & p2 & H1 & H2 & Hlt).
  rewrite project_ok in H1 by (simpl; lra).
  rewrite project_ok in H2 by (simpl; lra).
  simpl in H1, H2. injection H1 as <-. injection H2 as <-.
  simpl in Hlt.
  match type of Hlt with
  | sqrt ?a < sqrt ?b =>
      replace a with (450 * 450) in Hlt by field;
      replace b with (75 * 75) in Hlt by field
  end.
  rewrite !sqrt_square in Hlt by lra. lra.
Qed.

(** C3, amended.  Over the reals, for a positive strength, a point
    [(x, y)] other than the vanishing point and depths [z1 < z2] in front
    of the camera plane ([perspective_strength + z1 > 0]), both
    projections return and the one at [z2] is strictly closer to the
    vanishing point.  (In binary64 two depths can be too close to tell
    apart: lemma [nearby_depths_project_alike] below.) *)
Theorem monotonic_convergence (self : t) (x y z1 z2 : R) :
  0 < perspective_strength self ->
  (x, y) <> (vp_x self, vp_y self) ->
  0 < perspective_strength self + z1 ->
  z1 < z2 ->
  strictly_closer self x y z1 z2.
Proof.
  intros Hs Hxy H1 H12.
  destruct (factor_decreasing self z1 z2 Hs H1 H12) as [Hf2 Hf21].
  eexists. eexists. split; [apply project_ok; lra |].
  split; [apply project_ok; lra |].
  rewrite !projected_distance.
  rewrite !Rabs_pos_eq by lra.
  apply Rmult_lt_compat_r; [| exact Hf21].
  apply off_vanishing_point_positive. exact Hxy.
Qed.

Lemma monotonic_convergence_witness :
  strictly_closer (make 800 600) 400 300 0 300.
Proof.
  apply monotonic_convergence.
  - unfold make, init, default_perspective_strength. simpl. lra.
  - unfold make, init. simpl. intros E. injection E as E1 E2. lra.
  - unfold make, init, default_perspective_strength. simpl. lra.
  - lra.
Defined.

End PerspectiveFacts.

(** ** Wireframe cube *)

Module CubeFacts.
Import WireframeCube.

Lemma init_consistent (p : Point3) (sz : R) : consistent (init p sz).
Proof. reflexivity. Qed.

Lemma update_position_consistent (c : t) (p : Point3) :
  consistent (update_position c p).
Proof. reflexivity. Qed.

Lemma moves_consistent (moves : list Point3) (c : t) :
  consistent c -> consistent (fold_left update_position moves c).
Proof.
  revert c. induction moves as [| m ms IH]; intros c Hc; simpl.
  - exact Hc.
  - apply IH. apply update_position_consistent.
Qed.

Lemma moves_keep_size (moves : list Point3) (c : t) :
  size (fold_left update_position moves c) = size c.
Proof.
  revert c. induction moves as [| m ms IH]; intros c; simpl.
  - reflexivity.
  - rewrite IH. reflexivity.
Qed.

Lemma after_moves_vertices (p : Point3) (sz : R) (moves : list Point3) :
  vertices_3d (after_moves p sz moves)
  = world_vertices_at (position (after_moves p sz moves)) sz.
Proof.
  unfold after_moves.
  rewrite (moves_consistent moves (init p sz) (init_consistent p sz)).
  rewrite moves_keep_size. reflexivity.
Qed.

Lemma world_vertices_length (p : Point3) (sz : R) :
  length (world_vertices_at p sz) = 8%nat.
Proof.
  destruct p as [[px py] pz]. unfold world_vertices_at.
  rewrite length_map. reflexivity.
Qed.

(** Moving the centre moves every vertex by the same vector. *)
Lemma world_vertices_translate (old new : Point3) (sz : R) :
  Forall2 (fun v v' : Point3 => v' = translate (delta new old) v)
          (world_vertices_at old sz) (world_vertices_at new sz).
Proof.
  destruct old as [[ox oy] oz]. destruct new as [[nx ny] nz].
  unfold world_vertices_at, translate, delta.
  induction UNIT_CUBE_VERTICES as [| [[vx vy] vz] vs IH]; simpl.
  - constructor.
  - constructor; [| exact IH]. f_equal; [f_equal |]; ring.
Qed.

Lemma last_of_nonempty {A : Type} (l : list A) (a d d' : A) :
  last (a :: l) d = last (a :: l) d'.
Proof.
  revert a. induction l as [| b l IH]; intros a.
  - reflexivity.
  - change (last (b :: l) d = last (b :: l) d'). apply IH.
Qed.

(** The centre of a moved cube is the last centre it was given. *)
Lemma moves_position (moves : list Point3) (c : t) :
  position (fold_left update_position moves c) = last moves (position c).
Proof.
  revert c. induction moves as [| m ms IH]; intros c.
  - reflexivity.
  - cbn [fold_left]. rewrite IH. destruct ms as [| p ms].
    + reflexivity.
    + change (last (m :: p :: ms) (position c)) with (last (p :: ms) (position c)).
      apply last_of_nonempty.
Qed.

(** C5.  A cube constructed at [position_3d] with size [sz] and moved any
    number of times has the size [sz] and the centre it was given last; it
    has 8 world vertices, the i-th at [center + local_i * (size / 2)],
    where the local vertices are the 8 sign combinations
    [(+-1, +-1, +-1)]; it has 12 edges: the closed quadrilateral 0-1-2-3
    in the plane [z = -1], the closed quadrilateral 4-5-6-7 in the plane
    [z = +1], and the four connectors [(i, i + 4)], which join corners
    with equal [(x, y)]; every edge joins two local vertices differing in
    one coordinate.  [update_position] keeps the size, installs the new
    centre and computes the 8 world vertices anew from it; over the
    reals, that is each old vertex translated by
    [new centre - old centre]. *)
Theorem cube_geometry_and_translation
    (position_3d : Point3) (sz : R) (moves : list Point3) (new_position : Point3) :
  let c := after_moves position_3d sz moves in
  let c' := update_position c new_position in
  size c = sz
  /\ position c = last moves position_3d
  /\ length (vertices_3d c) = 8%nat
  /\ vertices_3d c =
       map (fun v : Z * Z * Z =>
              (fst (fst (position c)) + IZR (fst (fst v)) * (size c / 2),
               snd (fst (position c)) + IZR (snd (fst v)) * (size c / 2),
               snd (position c) + IZR (snd v) * (size c / 2)))
           UNIT_CUBE_VERTICES
  /\ length UNIT_CUBE_VERTICES = 8%nat
  /\ NoDup UNIT_CUBE_VERTICES
  /\ incl (list_prod (list_prod [-1; 1] [-1; 1]) [-1; 1])%Z UNIT_CUBE_VERTICES
  /\ length EDGES = 12%nat
  /\ EDGES = Wire.closed_loop [0; 1; 2; 3]%nat
             ++ Wire.closed_loop [4; 5; 6; 7]%nat
             ++ map (fun i : nat => (i, i + 4)%nat) [0; 1; 2; 3]%nat
  /\ Forall (fun i : nat => z_of (local_vertex i) = (-1)%Z) [0; 1; 2; 3]%nat
  /\ Forall (fun i : nat => z_of (local_vertex i) = 1%Z) [4; 5; 6; 7]%nat
  /\ Forall (fun i : nat => xy_of (local_vertex i) = xy_of (local_vertex (i + 4)))
            [0; 1; 2; 3]%nat
  /\ Forall (fun e : Wire.edge =>
               differing_axes (local_vertex (fst e)) (local_vertex (snd e)) = 1%nat)
            EDGES
  /\ size c' = sz
  /\ position c' = new_position
  /\ length (vertices_3d c') = 8%nat
  /\ vertices_3d c' =
       map (fun v : Z * Z * Z =>
              (fst (fst new_position) + IZR (fst (fst v)) * (sz / 2),
               snd (fst new_position) + IZR (snd (fst v)) * (sz / 2),
               snd new_position + IZR (snd v) * (sz / 2)))
           UNIT_CUBE_VERTICES
  /\ Forall2 (fun v v' : Point3 => v' = translate (delta new_position (position c)) v)
             (vertices_3d c) (vertices_3d c').
Proof.
  intros c c'.
  assert (Hsz : size c = sz) by (unfold c, after_moves; apply moves_keep_size).
  assert (Hv : vertices_3d c = world_vertices_at (position c) sz)
    by apply after_moves_vertices.
  assert (Hv' : vertices_3d c' = world_vertices_at new_position sz).
  { unfold c', update_position, _calculate_world_vertices. simpl. rewrite Hsz. reflexivity. }
  repeat match goal with |- _ /\ _ => split end.
  - exact Hsz.
  - unfold c, after_moves. rewrite moves_position. reflexivity.
  - rewrite Hv. apply world_vertices_length.
  - rewrite Hv, Hsz. destruct (position c) as [[px py] pz].
    unfold world_vertices_at. simpl. reflexivity.
  - reflexivity.
  - unfold UNIT_CUBE_VERTICES.
    repeat (constructor; [simpl; intuition congruence |]). constructor.
  - intros v Hin. simpl in Hin. unfold UNIT_CUBE_VERTICES. simpl.
    intuition (subst; auto).
  - reflexivity.
  - reflexivity.
  - repeat constructor.
  - repeat constructor.
  - repeat constructor.
  - repeat constructor.
  - unfold c'. cbn [update_position size]. exact Hsz.
  - reflexivity.
  - rewrite Hv'. apply world_vertices_length.
  - rewrite Hv'. destruct new_position as [[px py] pz]. reflexivity.
  - rewrite Hv, Hv'. apply world_vertices_translate.
Qed.

End CubeFacts.

(** ** Low-poly sphere *)

Module SphereFacts.
Import LowPolySphere.

Ltac member_of_list :=
  simpl; first [ left; solve [repeat f_equal; ring] | right; member_of_list ].

Ltac each_element tac :=
  repeat (apply Forall_cons; [tac |]); apply Forall_nil.

Lemma sqrt5_sq : sqrt 5 * sqrt 5 = 5.
Proof. apply sqrt_sqrt. lra. Qed.

Lemma phi_sq : phi * phi = phi + 1.
Proof. unfold phi. pose proof sqrt5_sq. field_simplify. nra. Qed.

Lemma phi_pos : 0 < phi.
Proof. unfold phi. pose proof (sqrt_pos 5). lra. Qed.

Lemma raw_vertices_positive_length :
  Forall (fun v : Point3 => 0 < norm_sq v) raw_vertices.
Proof.
  pose proof phi_pos as Hp.
  assert (Hpp : 0 < phi * phi) by (apply Rmult_lt_0_compat; exact Hp).
  unfold raw_vertices. each_element ltac:(unfold norm_sq; nra).
Qed.

Lemma normalize_unit (v : Point3) : 0 < norm_sq v -> norm_sq (normalize v) = 1.
Proof.
  destruct v as [[x y] z]. unfold norm_sq, normalize. intros Hpos.
  set (n := x * x + y * y + z * z) in *.
  assert (Hl : sqrt n * sqrt n = n) by (apply sqrt_sqrt; lra).
  assert (Hl0 : sqrt n <> 0).
  { intros E. rewrite E in Hl. lra. }
  replace (x / sqrt n * (x / sqrt n) + y / sqrt n * (y / sqrt n)
           + z / sqrt n * (z / sqrt n))
    with (n / (sqrt n * sqrt n)) by (unfold n; field; exact Hl0).
  rewrite Hl. field. lra.
Qed.

Lemma base_vertices_unit :
  Forall (fun v : Point3 => norm_sq v = 1) _generate_icosahedron.
Proof.
  unfold _generate_icosahedron. apply Forall_map.
  eapply Forall_impl; [| exact raw_vertices_positive_length].
  intros v Hv. apply normalize_unit. exact Hv.
Qed.

Lemma rotate_y_norm (v : Point3) (angle_deg : R) :
  norm_sq (_rotate_y v angle_deg) = norm_sq v.
Proof.
  destruct v as [[x y] z]. unfold _rotate_y, norm_sq.
  pose proof (sin2_cos2 (radians angle_deg)) as H. unfold Rsqr in H.
  set (c := cos (radians angle_deg)) in *.
  set (s := sin (radians angle_deg)) in *.
  replace ((x * c + z * s) * (x * c + z * s) + y * y
           + (- x * s + z * c) * (- x * s + z * c))
    with ((x * x + z * z) * (s * s + c * c) + y * y) by ring.
  rewrite H. ring.
Qed.

Lemma raw_vertices_are_cyclic_permutations :
  Forall (fun ab : R * R => incl (cyclic_triple ab) raw_vertices) sign_pairs.
Proof.
  unfold sign_pairs, cyclic_triple.
  each_element
    ltac:(intros p Hp; simpl in Hp;
          destruct Hp as [<- | [<- | [<- | []]]]; unfold raw_vertices; member_of_list).
Qed.

Lemma listed_edges_have_edge_length :
  Forall (fun e : Wire.edge => raw_dist_sq (fst e) (snd e) = 4) _generate_edges.
Proof.
  pose proof phi_sq as H.
  unfold _generate_edges.
  each_element ltac:(unfold raw_dist_sq, raw_vertices; cbn [nth fst snd]; nra).
Qed.

Lemma missing_edge_has_edge_length : raw_dist_sq 1 8 = 4.
Proof.
  pose proof phi_sq as H.
  unfold raw_dist_sq, raw_vertices; cbn [nth fst snd]; nra.
Qed.

(** C2.  [_generate_icosahedron] returns 12 points, the unit-normalised
    cyclic permutations of [(0, +-1, +-phi)].  [_generate_edges] returns
    30 index pairs, each joining two vertices at the icosahedron's edge
    length, but the list is not the icosahedral adjacency: the pair of
    vertices 5 and 9 is listed twice (as [(5, 9)] and as [(9, 5)]), the
    edge between vertices 1 and 8 is absent although they are at edge
    length, so there are 29 distinct edges and vertices 1 and 8 have
    degree 4. *)
Theorem icosahedron_edge_list_defect :
  length _generate_icosahedron = 12%nat
  /\ _generate_icosahedron = map normalize raw_vertices
  /\ Forall (fun ab : R * R => incl (cyclic_triple ab) raw_vertices) sign_pairs
  /\ Forall (fun v : Point3 => norm_sq v = 1) _generate_icosahedron
  /\ length _generate_edges = 30%nat
  /\ Forall (fun e : Wire.edge => raw_dist_sq (fst e) (snd e) = 4) _generate_edges
  /\ In (5, 9)%nat _generate_edges
  /\ In (9, 5)%nat _generate_edges
  /\ length (Wire.undirected _generate_edges) = 29%nat
  /\ Wire.has_edge _generate_edges 1 8 = false
  /\ raw_dist_sq 1 8 = 4
  /\ map (Wire.degree _generate_edges) (seq 0 12)
     = [5; 4; 5; 5; 5; 5; 5; 5; 4; 5; 5; 5]%nat.
Proof.
  repeat match goal with |- _ /\ _ => split end.
  - reflexivity.
  - reflexivity.
  - exact raw_vertices_are_cyclic_permutations.
  - exact base_vertices_unit.
  - reflexivity.
  - exact listed_edges_have_edge_length.
  - simpl. tauto.
  - simpl. tauto.
  - vm_compute. reflexivity.
  - reflexivity.
  - exact missing_edge_has_edge_length.
  - vm_compute. reflexivity.
Qed.

(** Neither mutator touches the size, the rotation speed, the base
    vertices or the edge list, and both leave the cache up to date. *)
Lemma step_frame (self : t) (c : call) :
  size (step self c) = size self
  /\ rotation_speed (step self c) = rotation_speed self
  /\ base_vertices (step self c) = base_vertices self
  /\ edges (step self c) = edges self
  /\ consistent (step self c).
Proof. destruct c; repeat split. Qed.

Lemma calls_frame (calls : list call) (self : t) :
  consistent self ->
  size (fold_left step calls self) = size self
  /\ rotation_speed (fold_left step calls self) = rotation_speed self
  /\ base_vertices (fold_left step calls self) = base_vertices self
  /\ edges (fold_left step calls self) = edges self
  /\ consistent (fold_left step calls self).
Proof.
  revert self. induction calls as [| c cs IH]; intros self Hc; simpl.
  - repeat split. exact Hc.
  - destruct (step_frame self c) as (Hs & Hr & Hb & He & Hc').
    destruct (IH (step self c) Hc') as (Hs' & Hr' & Hb' & He' & Hc'').
    rewrite Hs', Hr', Hb', He', Hs, Hr, Hb, He. repeat split. exact Hc''.
Qed.

Lemma after_calls_frame (p : Point3) (sz : R) (calls : list call) :
  size (after_calls p sz calls) = sz
  /\ rotation_speed (after_calls p sz calls) = 10
  /\ base_vertices (after_calls p sz calls) = _generate_icosahedron
  /\ edges (after_calls p sz calls) = _generate_edges
  /\ consistent (after_calls p sz calls).
Proof.
  unfold after_calls. apply (calls_frame calls (init p sz)). reflexivity.
Qed.

(** A rotated, scaled and translated vector ends at distance
    [|size| * |v|] from the centre. *)
Lemma world_vertex_distance (px py pz : R) (v : Point3) (angle sz : R) :
  norm_sq v = 1 ->
  dist3 (let '(rx, ry, rz) := _rotate_y v angle in
         (px + rx * sz, py + ry * sz, pz + rz * sz))
        (px, py, pz)
  = Rabs sz.
Proof.
  intros Hv. rewrite <- (rotate_y_norm v angle) in Hv.
  destruct (_rotate_y v angle) as [[rx ry] rz]. unfold norm_sq in Hv.
  unfold dist3.
  replace ((px + rx * sz - px) * (px + rx * sz - px)
           + (py + ry * sz - py) * (py + ry * sz - py)
           + (pz + rz * sz - pz) * (pz + rz * sz - pz))
    with (sz * sz * (rx * rx + ry * ry + rz * rz)) by ring.
  rewrite sqrt_square_scaled, Hv, sqrt_1. ring.
Qed.

Lemma world_vertices_distance (self : t) :
  Forall (fun v : Point3 => norm_sq v = 1) (base_vertices self) ->
  Forall (fun w : Point3 => dist3 w (position self) = Rabs (size self))
         (_calculate_world_vertices self).
Proof.
  intros Hb. unfold _calculate_world_vertices.
  destruct (position self) as [[px py] pz].
  apply Forall_map. eapply Forall_impl; [| exact Hb].
  intros v Hv. apply world_vertex_distance. exact Hv.
Qed.

(** C6.  Over the reals, [update(dt)] sets the rotation angle to
    [(angle + rotation_speed * dt) mod 360]: the one value in [[0, 360)]
    that differs from [angle + rotation_speed * dt] by a whole number of
    turns of 360 degrees.  It leaves centre, size, speed and base
    vertices alone; the new world vertices are the base vertices turned
    about the vertical axis by [theta], the new angle in radians
    ([theta = angle * pi / 180], [x' = x cos theta + z sin theta],
    [z' = - x sin theta + z cos theta], [y] kept), scaled by [size] and
    moved to the centre.  A constructed sphere turns at 10 degrees per
    second, so [update(1.0)] takes its angle to [(angle + 10) mod 360]. *)
Theorem update_rotation
    (self : t) (dt : R) (position_3d : Point3) (sz : R) (calls : list call) :
  let self' := update self dt in
  let theta := rotation_angle self' * PI / 180 in
  let built := after_calls position_3d sz calls in
  (exists turns : Z,
     rotation_angle self'
     = rotation_angle self + rotation_speed self * dt - 360 * IZR turns)
  /\ 0 <= rotation_angle self' < 360
  /\ vertices_3d self' =
       map (fun v : Point3 =>
              let x := fst (fst v) in
              let y := snd (fst v) in
              let z := snd v in
              (fst (fst (position self)) + (x * cos theta + z * sin theta) * size self,
               snd (fst (position self)) + y * size self,
               snd (position self) + (- x * sin theta + z * cos theta) * size self))
           (base_vertices self)
  /\ position self' = position self
  /\ size self' = size self
  /\ rotation_speed self' = rotation_speed self
  /\ base_vertices self' = base_vertices self
  /\ rotation_speed built = 10
  /\ (exists turns : Z,
        rotation_angle (update built 1) = rotation_angle built + 10 - 360 * IZR turns)
  /\ 0 <= rotation_angle (update built 1) < 360
  /\ length (vertices_3d (update built dt)) = 12%nat.
Proof.
  intros self' theta built.
  destruct (after_calls_frame position_3d sz calls) as (_ & Hr & Hb & _).
  fold built in Hr, Hb.
  split.
  { exists (Zfloor ((rotation_angle self + rotation_speed self * dt) / 360)).
    reflexivity. }
  split; [apply float_mod_range; lra |].
  split.
  { unfold self', update, _calculate_world_vertices. simpl.
    destruct (position self) as [[px py] pz]. simpl.
    apply map_ext. intros [[x y] z]. reflexivity. }
  do 4 (split; [reflexivity |]).
  split; [exact Hr |].
  split.
  { exists (Zfloor ((rotation_angle built + 10) / 360)).
    unfold update. simpl. rewrite Hr. unfold float_mod.
    replace (rotation_angle built + 10 * 1) with (rotation_angle built + 10) by ring.
    reflexivity. }
  split; [apply float_mod_range; lra |].
  unfold update, _calculate_world_vertices. simpl.
  destruct (position built) as [[px py] pz].
  rewrite length_map, Hb. reflexivity.
Qed.

(** C10.  After construction and any sequence of [update] and
    [update_position] calls, each of the 12 world vertices of a sphere of
    radius [size >= 0] is at distance [size] from the current centre. *)
Theorem vertices_on_sphere (position_3d : Point3) (sz : R) (calls : list call) :
  0 <= sz ->
  let self := after_calls position_3d sz calls in
  length (vertices_3d self) = 12%nat
  /\ Forall (fun w : Point3 => dist3 w (position self) = size self) (vertices_3d self).
Proof.
  intros Hsz self.
  destruct (after_calls_frame position_3d sz calls) as (Hs & _ & Hb & _ & Hc).
  fold self in Hs, Hb, Hc. rewrite Hc. split.
  - unfold _calculate_world_vertices. destruct (position self) as [[px py] pz].
    rewrite length_map, Hb. reflexivity.
  - rewrite <- (Rabs_pos_eq (size self)) by lra.
    apply world_vertices_distance. rewrite Hb. exact base_vertices_unit.
Qed.

Lemma vertices_on_sphere_witness :
  0 <= 18
  /\ Forall (fun w : Point3 =>
               dist3 w (position (after_calls (600, 200, 0) 18
                                     [Update 1; UpdatePosition (40, 80, 0); Update 0.5]))
               = 18)
            (vertices_3d (after_calls (600, 200, 0) 18
                            [Update 1; UpdatePosition (40, 80, 0); Update 0.5])).
Proof.
  assert (H : 0 <= 18) by lra.
  split; [exact H |].
  exact (proj2 (vertices_on_sphere (600, 200, 0) 18
                  [Update 1; UpdatePosition (40, 80, 0); Update 0.5] H)).
Defined.

(** Whatever the sign of [size], the vertices are at distance [|size|]. *)
Lemma vertices_at_abs_size (position_3d : Point3) (sz : R) (calls : list call) :
  Forall (fun w : Point3 =>
            dist3 w (position (after_calls position_3d sz calls)) = Rabs sz)
         (vertices_3d (after_calls position_3d sz calls)).
Proof.
  destruct (after_calls_frame position_3d sz calls) as (Hs & _ & Hb & _ & Hc).
  rewrite Hc.
  pose proof (world_vertices_distance (after_calls position_3d sz calls)) as H.
  rewrite Hs, Hb in H. apply H. exact base_vertices_unit.
Qed.

End SphereFacts.

(** ** Colour oscillator *)

Module ColorFacts.
Import ColorEvolution.

Lemma master_hue_ok (self : t) (now : R) :
  cycle_duration self <> 0 ->
  get_master_hue self now
  = Ok (float_mod ((now - start_time self) / cycle_duration self) 1).
Proof.
  intros Hc. unfold get_master_hue. rewrite (py_div_ok _ _ Hc). reflexivity.
Qed.

Lemma master_hue_raise (self : t) (now : R) :
  cycle_duration self = 0 ->
  get_master_hue self now = Raise ZeroDivisionError.
Proof.
  intros Hc. unfold get_master_hue. rewrite (py_div_raise _ _ Hc). reflexivity.
Qed.

(** The colour methods are [hsv_to_rgb] of the hue, with the fixed
    saturation and value of each. *)
Lemma colors_from_hues (hsv_to_rgb : R -> R -> R -> R * R * R) (self : t) (now : R) :
  get_snake_color hsv_to_rgb self now
  = fmap (fun hue : R => to_rgb255 hsv_to_rgb (hue, 0.8, 0.9)) (snake_hue self now)
  /\ get_apple_color hsv_to_rgb self now
     = fmap (fun hue : R => to_rgb255 hsv_to_rgb (hue, 0.9, 0.95)) (apple_hue self now).
Proof.
  unfold get_snake_color, get_apple_color, snake_hue, apple_hue, snake_hsv, apple_hsv.
  destruct (get_master_hue self now) as [m | e]; split; reflexivity.
Qed.

(** Half a cycle after the start the snake hue is 0.5 and the apple hue
    0.833. *)
Example hues_at_half_cycle :
  snake_hue (init 10 0) 5 = Ok 0.5 /\ apple_hue (init 10 0) 5 = Ok 0.833.
Proof.
  unfold apple_hue, snake_hue, apple_hsv, snake_hsv.
  rewrite master_hue_ok by (simpl; lra). simpl. unfold hue_of. simpl.
  replace ((5 - 0) / 10) with 0.5 by lra.
  rewrite (float_mod_small 0.5 1) by lra.
  replace (0.5 + 0.333) with 0.833 by lra.
  rewrite (float_mod_small 0.833 1) by lra.
  split; reflexivity.
Qed.

End ColorFacts.

(** ** What rounding changes *)

Module Binary64Facts.
Import PrimFloat.

(** The projection of the code at a divisor that is not zero. *)
Lemma binary64_project_ok (cam : Binary64.PerspectiveCamera.t) (u v w : float) :
  (Binary64.PerspectiveCamera.perspective_strength cam + w =? 0)%float = false ->
  Binary64.PerspectiveCamera.project_3d_to_2d cam u v w
  = Ok (Binary64.PerspectiveCamera.vp_x cam
          + (u - Binary64.PerspectiveCamera.vp_x cam)
            * (Binary64.PerspectiveCamera.perspective_strength cam
               / (Binary64.PerspectiveCamera.perspective_strength cam + w)),
        Binary64.PerspectiveCamera.vp_y cam
          + (v - Binary64.PerspectiveCamera.vp_y cam)
            * (Binary64.PerspectiveCamera.perspective_strength cam
               / (Binary64.PerspectiveCamera.perspective_strength cam + w)))%float.
Proof.
  intros Hd. unfold Binary64.PerspectiveCamera.project_3d_to_2d, Binary64.py_div.
  rewrite Hd. reflexivity.
Qed.

(** C1, as stated, fails at depth 0 in binary64.  The factor is
    [300 / (300 + 0) = 1], but the point does not come back unchanged: [0.1 - 400] is rounded to a multiple of
    [2 ^ -44], and adding 400 to it gives [0.10000000000002274]. *)
Lemma depth_zero_moves_point :
  (Binary64.PerspectiveCamera.perspective_strength
     (Binary64.PerspectiveCamera.make 800 600) + 0 =? 0)%float = false
  /\ Binary64.PerspectiveCamera.project_3d_to_2d
       (Binary64.PerspectiveCamera.make 800 600) 0.1 300 0
     = Ok (0.10000000000002274, 300)%float
  /\ Binary64.PerspectiveCamera.project_3d_to_2d
       (Binary64.PerspectiveCamera.make 800 600) 0.1 300 0
     <> Ok (0.1, 300)%float.
Proof.
  split; [vm_compute; reflexivity |].
  split; [vm_compute; reflexivity |].
  intros H.
  apply (f_equal (fun r : result (float * float) =>
                    match r with
                    | Ok (a, _) => FloatOps.Prim2SF a
                    | Raise _ => SpecFloat.S754_nan
                    end)) in H.
  vm_compute in H. discriminate H.
Qed.

(** Depths closer together than the spacing of the floats around the
    strength give the same factor, and the same projected point. *)
Lemma nearby_depths_project_alike :
  (0 <? Binary64.PerspectiveCamera.perspective_strength
          (Binary64.PerspectiveCamera.make 800 600))%float = true
  /\ (0 <? 1e-14)%float = true
  /\ Binary64.PerspectiveCamera.project_3d_to_2d
       (Binary64.PerspectiveCamera.make 800 600) 400 300 0
     = Ok (400, 300)%float
  /\ Binary64.PerspectiveCamera.project_3d_to_2d
       (Binary64.PerspectiveCamera.make 800 600) 400 300 1e-14
     = Ok (400, 300)%float.
Proof. repeat split; vm_compute; reflexivity. Qed.

(** C1.  Wherever [perspective_strength + z] is not zero,
    [project_3d_to_2d] returns
    [(vp_x + (x - vp_x) * f, vp_y + (y - vp_y) * f)] with
    [f = perspective_strength / (perspective_strength + z)]: in binary64
    with each operation rounded, and over the reals.
    [PerspectiveCamera(800, 600)] has its vanishing point at [(400, 450)],
    sends [(400, 300, 0)] to [(400, 300)] and, with its strength of 300,
    [(400, 300, 300)] to [(400, 375)], in binary64 and over the reals
    alike.  Over the reals the point returned at [z = 0] is [(x, y)]
    itself. *)
Theorem project_3d_to_2d_formula
    (cam : Binary64.PerspectiveCamera.t) (u v w : float)
    (self : PerspectiveCamera.t) (x y z : R) :
  (Binary64.PerspectiveCamera.perspective_strength cam + w =? 0)%float = false ->
  PerspectiveCamera.perspective_strength self + z <> 0 ->
  (let f := (Binary64.PerspectiveCamera.perspective_strength cam
             / (Binary64.PerspectiveCamera.perspective_strength cam + w))%float in
   Binary64.PerspectiveCamera.project_3d_to_2d cam u v w
   = Ok (Binary64.PerspectiveCamera.vp_x cam
           + (u - Binary64.PerspectiveCamera.vp_x cam) * f,
         Binary64.PerspectiveCamera.vp_y cam
           + (v - Binary64.PerspectiveCamera.vp_y cam) * f)%float)
  /\ (Binary64.PerspectiveCamera.vp_x (Binary64.PerspectiveCamera.make 800 600),
      Binary64.PerspectiveCamera.vp_y (Binary64.PerspectiveCamera.make 800 600))
     = (400, 450)%float
  /\ Binary64.PerspectiveCamera.perspective_strength
       (Binary64.PerspectiveCamera.make 800 600) = 300%float
  /\ Binary64.PerspectiveCamera.project_3d_to_2d
       (Binary64.PerspectiveCamera.make 800 600) 400 300 0
     = Ok (400, 300)%float
  /\ Binary64.PerspectiveCamera.project_3d_to_2d
       (Binary64.PerspectiveCamera.make 800 600) 400 300 300
     = Ok (400, 375)%float
  /\ (let f := PerspectiveCamera.perspective_strength self
               / (PerspectiveCamera.perspective_strength self + z) in
      PerspectiveCamera.project_3d_to_2d self x y z
      = Ok (PerspectiveCamera.vp_x self + (x - PerspectiveCamera.vp_x self) * f,
            PerspectiveCamera.vp_y self + (y - PerspectiveCamera.vp_y self) * f))
  /\ (z = 0 -> PerspectiveCamera.project_3d_to_2d self x y z = Ok (x, y))
  /\ (PerspectiveCamera.vp_x (PerspectiveCamera.make 800 600),
      PerspectiveCamera.vp_y (PerspectiveCamera.make 800 600)) = (400, 450)
  /\ PerspectiveCamera.perspective_strength (PerspectiveCamera.make 800 600) = 300
  /\ PerspectiveCamera.project_3d_to_2d (PerspectiveCamera.make 800 600) 400 300 0
     = Ok (400, 300)
  /\ PerspectiveCamera.project_3d_to_2d (PerspectiveCamera.make 800 600) 400 300 300
     = Ok (400, 375).
Proof.
  intros Hw Hd.
  split; [cbv zeta; apply binary64_project_ok; exact Hw |].
  split; [vm_compute; reflexivity |].
  split; [vm_compute; reflexivity |].
  split; [vm_compute; reflexivity |].
  split; [vm_compute; reflexivity |].
  split; [cbv zeta; apply PerspectiveFacts.project_ok; exact Hd |].
  split.
  { intros Hz. rewrite (PerspectiveFacts.project_ok _ _ _ _ Hd). subst z.
    f_equal. f_equal; field; lra. }
  rewrite PerspectiveFacts.make_800_600.
  split; [reflexivity |]. split; [reflexivity |]. split.
  - rewrite PerspectiveFacts.project_ok by (simpl; lra).
    simpl. f_equal. f_equal; field.
  - rewrite PerspectiveFacts.project_ok by (simpl; lra).
    simpl. f_equal. f_equal; field.
Qed.

Lemma project_3d_to_2d_formula_witness :
  (Binary64.PerspectiveCamera.perspective_strength
     (Binary64.PerspectiveCamera.make 800 600) + 100 =? 0)%float = false
  /\ PerspectiveCamera.perspective_strength (PerspectiveCamera.make 800 600) + 0 <> 0
  /\ Binary64.PerspectiveCamera.project_3d_to_2d
       (Binary64.PerspectiveCamera.make 800 600) 600 200 100
     = Ok (550, 262.5)%float
  /\ PerspectiveCamera.project_3d_to_2d (PerspectiveCamera.make 800 600) 600 200 0
     = Ok (600, 200).
Proof.
  assert (Hw : (Binary64.PerspectiveCamera.perspective_strength
                  (Binary64.PerspectiveCamera.make 800 600) + 100 =? 0)%float = false)
    by (vm_compute; reflexivity).
  assert (Hd : PerspectiveCamera.perspective_strength (PerspectiveCamera.make 800 600)
               + 0 <> 0).
  { unfold PerspectiveCamera.make, PerspectiveCamera.init,
      PerspectiveCamera.default_perspective_strength. simpl. lra. }
  pose proof (project_3d_to_2d_formula
                (Binary64.PerspectiveCamera.make 800 600) 600 200 100
                (PerspectiveCamera.make 800 600) 600 200 0 Hw Hd) as H.
  split; [exact Hw |]. split; [exact Hd |]. split.
  - rewrite (proj1 H). vm_compute. reflexivity.
  - exact (proj1 (proj2 (proj2 (proj2 (proj2 (proj2 (proj2 H)))))) eq_refl).
Defined.

(** C5, as stated, fails in binary64 for a cube of size 16 moved from
    [x = 0.1] to [x = 0.2]: its first vertex goes from [-7.9] to [-7.8],
    as rounded, and the step between these two floats is not the step
    between [0.1] and [0.2]. *)
Lemma update_position_shift_is_rounded :
  hd_error (Binary64.WireframeCube.vertices_3d
              (Binary64.WireframeCube.init (0.1, 0, 0)%float 16%float))
  = Some (- 7.9, - 8, - 8)%float
  /\ hd_error (Binary64.WireframeCube.vertices_3d
                 (Binary64.WireframeCube.update_position
                    (Binary64.WireframeCube.init (0.1, 0, 0)%float 16%float)
                    (0.2, 0, 0)%float))
     = Some (- 7.8, - 8, - 8)%float
  /\ (Binary64.units (- 7.8)%float - Binary64.units (- 7.9)%float
      <> Binary64.units 0.2%float - Binary64.units 0.1%float)%Z.
Proof.
  split; [vm_compute; reflexivity |].
  split; [vm_compute; reflexivity |].
  apply Z.eqb_neq. vm_compute. reflexivity.
Qed.

(** C6, as stated, fails in binary64 for a constructed sphere turned back
    by [2 ^ -70] seconds: the remainder of [fmod] is the tiny negative
    angle itself, and adding 360 to it rounds to 360.  The new angle is
    not below 360, and it does not differ from [0 + 10 * dt] by a
    multiple of 360. *)
Lemma update_can_leave_360 :
  Binary64.LowPolySphere.rotation_angle
    (Binary64.LowPolySphere.update Binary64.LowPolySphere.init (- 0x1p-70)%float)
  = 360%float
  /\ (Binary64.LowPolySphere.rotation_angle
        (Binary64.LowPolySphere.update Binary64.LowPolySphere.init (- 0x1p-70)%float)
      <? 360)%float = false
  /\ ((Binary64.units
         (Binary64.LowPolySphere.rotation_angle
            (Binary64.LowPolySphere.update Binary64.LowPolySphere.init
               (- 0x1p-70)%float))
       - Binary64.units (0 + 10 * - 0x1p-70)%float)
      mod Binary64.units 360%float <> 0)%Z.
Proof.
  split; [vm_compute; reflexivity |].
  split; [vm_compute; reflexivity |].
  apply Z.eqb_neq. vm_compute. reflexivity.
Qed.

(** Ordinary turns, as the interpreter computes them. *)
Example sphere_angles :
  Binary64.LowPolySphere.rotation_angle
    (Binary64.LowPolySphere.update Binary64.LowPolySphere.init 1) = 10%float
  /\ Binary64.LowPolySphere.rotation_angle
       (Binary64.LowPolySphere.update Binary64.LowPolySphere.init 36.5) = 5%float
  /\ Binary64.LowPolySphere.rotation_angle
       (Binary64.LowPolySphere.update Binary64.LowPolySphere.init (- 1)) = 350%float.
Proof. repeat split; vm_compute; reflexivity. Qed.

(** C8.  Sampled at the same clock reading, the apple colour is derived
    from the hue [(h + 0.333) % 1.0], where [h] is the hue the snake
    colour is derived from; the two methods return, or raise, together.
    This is so in binary64, with [+] and [%] as the interpreter computes
    them, and over the reals.  Nine tenths of a cycle after the start the
    snake hue is 0.9 and the apple hue has wrapped to
    0.2330000000000001 (over the reals, 0.233; with an [hsv_to_rgb] that
    returns the hue on every channel the colours are 229 and 59); at
    half a cycle the hues are 0.5 and 0.833. *)
Theorem apple_hue_is_snake_hue_shifted
    (A : Type) (finish : float -> float -> float -> A)
    (clock : Binary64.ColorEvolution.t) (reading : float)
    (hsv_to_rgb : R -> R -> R -> R * R * R) (self : ColorEvolution.t) (now : R) :
  match Binary64.ColorEvolution.get_master_hue clock reading with
  | Ok h =>
      Binary64.ColorEvolution.get_snake_color A finish clock reading
      = Ok (finish h 0.8 0.9)%float
      /\ Binary64.ColorEvolution.get_apple_color A finish clock reading
         = Ok (finish (Binary64.float_mod (h + 0.333) 1) 0.9 0.95)%float
  | Raise e =>
      Binary64.ColorEvolution.get_snake_color A finish clock reading = Raise e
      /\ Binary64.ColorEvolution.get_apple_color A finish clock reading = Raise e
  end
  /\ Binary64.ColorEvolution.get_snake_color _ (fun h _ _ => h)
       (Binary64.ColorEvolution.init 60 100) 154
     = Ok 0.9%float
  /\ Binary64.ColorEvolution.get_apple_color _ (fun h _ _ => h)
       (Binary64.ColorEvolution.init 60 100) 154
     = Ok 0.2330000000000001%float
  /\ Binary64.ColorEvolution.get_snake_color _ (fun h _ _ => h)
       (Binary64.ColorEvolution.init 10 0) 5
     = Ok 0.5%float
  /\ Binary64.ColorEvolution.get_apple_color _ (fun h _ _ => h)
       (Binary64.ColorEvolution.init 10 0) 5
     = Ok 0.833%float
  /\ match ColorEvolution.get_master_hue self now with
     | Ok h =>
         ColorEvolution.get_snake_color hsv_to_rgb self now
         = Ok (ColorEvolution.to_rgb255 hsv_to_rgb (h, 0.8, 0.9))
         /\ ColorEvolution.get_apple_color hsv_to_rgb self now
            = Ok (ColorEvolution.to_rgb255 hsv_to_rgb
                    (float_mod (h + 0.333) 1, 0.9, 0.95))
     | Raise e =>
         ColorEvolution.get_snake_color hsv_to_rgb self now = Raise e
         /\ ColorEvolution.get_apple_color hsv_to_rgb self now = Raise e
     end
  /\ ColorEvolution.get_snake_color (fun h _ _ => (h, h, h)) (ColorEvolution.init 10 0) 9
     = Ok (229, 229, 229)%Z
  /\ ColorEvolution.get_apple_color (fun h _ _ => (h, h, h)) (ColorEvolution.init 10 0) 9
     = Ok (59, 59, 59)%Z.
Proof.
  split.
  { unfold Binary64.ColorEvolution.get_snake_color,
      Binary64.ColorEvolution.get_apple_color.
    destruct (Binary64.ColorEvolution.get_master_hue clock reading) as [h | e];
      split; reflexivity. }
  split; [vm_compute; reflexivity |].
  split; [vm_compute; reflexivity |].
  split; [vm_compute; reflexivity |].
  split; [vm_compute; reflexivity |].
  split.
  { unfold ColorEvolution.get_snake_color, ColorEvolution.get_apple_color,
      ColorEvolution.snake_hsv, ColorEvolution.apple_hsv.
    destruct (ColorEvolution.get_master_hue self now) as [h | e];
      split; reflexivity. }
  assert (Hint : forall (n : Z) (x : R),
             0 <= IZR n <= x -> x < IZR n + 1 -> py_int x = n).
  { intros n x [H0 Hl] Hu. unfold py_int.
    destruct (Rle_dec 0 x) as [_ | Hn]; [| exfalso; apply Hn; lra].
    apply Zfloor_eq. lra. }
  unfold ColorEvolution.get_snake_color, ColorEvolution.get_apple_color,
    ColorEvolution.snake_hsv, ColorEvolution.apple_hsv.
  rewrite ColorFacts.master_hue_ok by (simpl; lra).
  cbn [ColorEvolution.init ColorEvolution.start_time ColorEvolution.cycle_duration
       bind fmap ColorEvolution.to_rgb255].
  replace ((9 - 0) / 10) with 0.9 by lra.
  rewrite (float_mod_small 0.9 1) by lra.
  assert (Hwrap : float_mod (0.9 + 0.333) 1 = 0.233).
  { unfold float_mod. rewrite (Zfloor_eq 1) by lra. lra. }
  rewrite Hwrap.
  rewrite (Hint 229%Z (0.9 * 255)) by lra.
  rewrite (Hint 59%Z (0.233 * 255)) by lra.
  split; reflexivity.
Qed.

(** A reading just before the start: the quotient is a tiny negative
    number, and adding 1 to it rounds to 1.  The hue is not below 1. *)
Example master_hue_can_be_one :
  Binary64.ColorEvolution.get_master_hue (Binary64.ColorEvolution.init 60 0) (- 1e-18)
  = Ok 1%float.
Proof. vm_compute. reflexivity. Qed.

End Binary64Facts.

(** ** More on the projector *)

Module ProjectorFacts.
Import PerspectiveCamera PerspectiveFacts.





(** X3.  Projecting a concatenation is projecting the parts, in order; a part
    that raises makes the whole raise. *)
Theorem project_points_app (self : t) (front back : list Point3) :
  project_points self (front ++ back) =
    (a <- project_points self front ;;
     b <- project_points self back ;;
     Ok (a ++ b)).
Proof.
  induction front as [| p ps IH].
  - simpl. destruct (project_points self back); reflexivity.
  - rewrite <- app_comm_cons, !project_points_cons, IH.
    destruct (project_3d_to_2d self (fst (fst p)) (snd (fst p)) (snd p)); simpl;
      [| reflexivity].
    destruct (project_points self ps); simpl; [| reflexivity].
    destruct (project_points self back); reflexivity.
Qed.

End ProjectorFacts.

(** ** Drawing a solid *)

Module RenderFacts.
Import Render PerspectiveCamera PerspectiveFacts.

Lemma project_points_length (self : t) (points_3d : list Point3) (out : list Point2) :
  project_points self points_3d = Ok out -> length out = length points_3d.
Proof.
  intros H. apply project_points_ok_iff in H.
  symmetry. eapply Forall2_length. exact H.
Qed.

(** The batch projection returns exactly when no point is on the camera
    plane. *)
Lemma project_points_returns_iff (self : t) (points_3d : list Point3) :
  Forall (fun p : Point3 => perspective_strength self + snd p <> 0) points_3d <->
  exists out : list Point2, project_points self points_3d = Ok out.
Proof.
  split.
  - intros Hall. induction Hall as [| p ps Hp Hps IH].
    + exists []. reflexivity.
    + destruct IH as [qs Hqs]. rewrite project_points_cons.
      rewrite (project_ok _ _ _ _ Hp). simpl. rewrite Hqs. simpl.
      eexists. reflexivity.
  - intros [out Hout]. apply project_points_ok_iff in Hout.
    induction Hout as [| p q ps qs Hpq Hrest IH]; constructor; [| exact IH].
    intros E.
    apply (project_raises_iff self (fst (fst p)) (snd (fst p)) _ ZeroDivisionError) in E.
    rewrite E in Hpq. discriminate Hpq.
Qed.

Lemma project_points_raises_on_plane (self : t) (points_3d : list Point3) :
  Exists (fun p : Point3 => perspective_strength self + snd p = 0) points_3d ->
  project_points self points_3d = Raise ZeroDivisionError.
Proof.
  intros H. apply project_points_raise_iff.
  eapply Exists_impl; [| exact H].
  intros p Hp. apply project_raises_iff. exact Hp.
Qed.

Lemma draw_edges_in_range (vertices_2d : list Point2) (edges : list Wire.edge)
    (c : color) (line_width : Z) (s : surface) :
  edges_below (length vertices_2d) edges = true ->
  draw_edges vertices_2d edges c line_width s
  = (s ++ map (edge_cmd vertices_2d c line_width) edges, None).
Proof.
  revert s. induction edges as [| [i j] rest IH]; intros s Hb; simpl.
  - rewrite app_nil_r. reflexivity.
  - simpl in Hb. apply andb_prop in Hb as [Hij Hrest].
    apply andb_prop in Hij as [Hi Hj].
    apply Nat.ltb_lt in Hi. apply Nat.ltb_lt in Hj.
    destruct (nth_error vertices_2d i) as [p1 |] eqn:E1;
      [| apply nth_error_None in E1; lia].
    destruct (nth_error vertices_2d j) as [p2 |] eqn:E2;
      [| apply nth_error_None in E2; lia].
    rewrite (IH _ Hrest). rewrite <- app_assoc. simpl.
    unfold edge_cmd at 2. simpl.
    rewrite (nth_error_nth _ _ _ E1), (nth_error_nth _ _ _ E2). reflexivity.
Qed.

(** An index past the projected vertices stops the loop with an
    [IndexError], at the first edge that has one; the edges before it
    are already on the surface. *)
Lemma draw_edges_out_of_range (vertices_2d : list Point2) (edges : list Wire.edge)
    (c : color) (line_width : Z) (s : surface) :
  edges_below (length vertices_2d) edges = false ->
  exists (drawn : list Wire.edge) (bad : Wire.edge) (rest : list Wire.edge),
    edges = drawn ++ bad :: rest
    /\ edges_below (length vertices_2d) drawn = true
    /\ edges_below (length vertices_2d) [bad] = false
    /\ draw_edges vertices_2d edges c line_width s
       = (s ++ map (edge_cmd vertices_2d c line_width) drawn, Some IndexError).
Proof.
  revert s. induction edges as [| [i j] rest IH]; intros s Hb.
  - discriminate Hb.
  - cbn [edges_below forallb fst snd] in Hb. cbn [draw_edges].
    destruct (Nat.ltb i (length vertices_2d)) eqn:Hi.
    + apply Nat.ltb_lt in Hi.
      destruct (nth_error vertices_2d i) as [p1 |] eqn:E1;
        [| apply nth_error_None in E1; lia].
      destruct (Nat.ltb j (length vertices_2d)) eqn:Hj.
      * apply Nat.ltb_lt in Hj.
        destruct (nth_error vertices_2d j) as [p2 |] eqn:E2;
          [| apply nth_error_None in E2; lia].
        cbn [andb] in Hb.
        destruct (IH (s ++ [if (line_width =? 1)%Z then AALine c p1 p2
                            else Line c p1 p2 line_width]) Hb)
          as (drawn & bad & rest' & Heq & Hdrawn & Hbad & Hrun).
        exists ((i, j) :: drawn), bad, rest'. subst rest.
        split; [reflexivity |]. split.
        { cbn [edges_below forallb fst snd].
          apply Nat.ltb_lt in Hi. apply Nat.ltb_lt in Hj. rewrite Hi, Hj.
          exact Hdrawn. }
        split; [exact Hbad |]. rewrite Hrun. rewrite <- app_assoc. simpl.
        unfold edge_cmd at 2. simpl.
        rewrite (nth_error_nth _ _ _ E1), (nth_error_nth _ _ _ E2). reflexivity.
      * assert (E2 : nth_error vertices_2d j = None).
        { apply nth_error_None. apply Nat.ltb_ge. exact Hj. }
        rewrite E2. exists [], (i, j), rest. cbn [app map]. rewrite app_nil_r.
        split; [reflexivity |]. split; [reflexivity |]. split; [| reflexivity].
        cbn [edges_below forallb fst snd]. rewrite Hj.
        destruct (Nat.ltb i (length vertices_2d)); reflexivity.
    + assert (E1 : nth_error vertices_2d i = None).
      { apply nth_error_None. apply Nat.ltb_ge. exact Hi. }
      rewrite E1. exists [], (i, j), rest. cbn [app map]. rewrite app_nil_r.
      split; [reflexivity |]. split; [reflexivity |]. split; [| reflexivity].
      cbn [edges_below forallb fst snd]. rewrite Hi. reflexivity.
Qed.

Lemma on_plane_dec (self : t) (points_3d : list Point3) :
  {Exists (fun p : Point3 => perspective_strength self + snd p = 0) points_3d}
  + {Forall (fun p : Point3 => perspective_strength self + snd p <> 0) points_3d}.
Proof.
  destruct (Exists_dec (fun p : Point3 => perspective_strength self + snd p = 0)
              points_3d (fun p => Req_dec_T _ _)) as [Hex | Hnex].
  - left. exact Hex.
  - right. apply Forall_Exists_neg. exact Hnex.
Qed.

(** X4.  What [render] can do, for either solid: raise [ZeroDivisionError]
    before anything is drawn, when a vertex is on the camera plane; draw
    one line per edge, in the order of the edge list; or raise
    [IndexError] at the first edge that has an index past the vertices,
    with exactly the edges before it drawn. *)
Theorem render_solid_cases (vertices_3d : list Point3) (edges : list Wire.edge)
    (s : surface) (camera : t) (c : color) (line_width : Z) :
  (Exists (fun p : Point3 => perspective_strength camera + snd p = 0) vertices_3d
   /\ render_solid vertices_3d edges s camera c line_width
      = (s, Some (Arithmetic ZeroDivisionError)))
  \/ (exists vertices_2d : list Point2,
        project_points camera vertices_3d = Ok vertices_2d
        /\ edges_below (length vertices_3d) edges = true
        /\ render_solid vertices_3d edges s camera c line_width
           = (s ++ map (edge_cmd vertices_2d c line_width) edges, None))
  \/ (exists (vertices_2d : list Point2)
             (drawn : list Wire.edge) (bad : Wire.edge) (rest : list Wire.edge),
        project_points camera vertices_3d = Ok vertices_2d
        /\ edges = drawn ++ bad :: rest
        /\ edges_below (length vertices_3d) drawn = true
        /\ edges_below (length vertices_3d) [bad] = false
        /\ render_solid vertices_3d edges s camera c line_width
           = (s ++ map (edge_cmd vertices_2d c line_width) drawn, Some IndexError)).
Proof.
  unfold render_solid.
  destruct (on_plane_dec camera vertices_3d) as [Hon | Hoff].
  - left. split; [exact Hon |].
    rewrite (project_points_raises_on_plane _ _ Hon). reflexivity.
  - right. apply project_points_returns_iff in Hoff as [vertices_2d Hp].
    rewrite Hp. pose proof (project_points_length _ _ _ Hp) as Hlen.
    destruct (edges_below (length vertices_3d) edges) eqn:Hb.
    + left. exists vertices_2d. split; [reflexivity |]. split; [reflexivity |].
      apply draw_edges_in_range. rewrite Hlen. exact Hb.
    + right. rewrite <- Hlen in Hb.
      destruct (draw_edges_out_of_range vertices_2d edges c line_width s Hb)
        as (drawn & bad & rest & Heq & Hdrawn & Hbad & Hrun).
      exists vertices_2d, drawn, bad, rest. rewrite <- Hlen.
      repeat split; assumption.
Qed.

(** The depths of the eight vertices of a cube: its centre's, less or
    plus half the size. *)
Lemma cube_depths (position : Point3) (sz : R) :
  map (fun p : Point3 => snd p) (WireframeCube.world_vertices_at position sz)
  = [ snd position + -1 * (sz / 2); snd position + -1 * (sz / 2);
      snd position + -1 * (sz / 2); snd position + -1 * (sz / 2);
      snd position + 1 * (sz / 2); snd position + 1 * (sz / 2);
      snd position + 1 * (sz / 2); snd position + 1 * (sz / 2) ].
Proof. destruct position as [[px py] pz]. reflexivity. Qed.

Lemma Forall_map_iff {A B : Type} (f : A -> B) (P : B -> Prop) (l : list A) :
  Forall (fun a => P (f a)) l <-> Forall P (map f l).
Proof. symmetry. apply Forall_map. Qed.

(** X5.  Over the reals, a cube is drawn as twelve lines, unless the depth
    of its near or of its far face, as [_calculate_world_vertices]
    computes it from the centre and half the size, is in the camera
    plane; then [render] raises before drawing. *)
Theorem cube_render (position_3d : Point3) (sz : R) (moves : list Point3)
    (s : surface) (camera : t) (c : color) (line_width : Z) :
  let cube := WireframeCube.after_moves position_3d sz moves in
  let near_depth := snd (WireframeCube.position cube) + -1 * (sz / 2) in
  let far_depth := snd (WireframeCube.position cube) + 1 * (sz / 2) in
  (perspective_strength camera + near_depth <> 0
   /\ perspective_strength camera + far_depth <> 0 ->
   exists vertices_2d : list Point2,
     project_points camera (WireframeCube.vertices_3d cube) = Ok vertices_2d
     /\ length vertices_2d = 8%nat
     /\ WireframeCube_render cube s camera c line_width
        = (s ++ map (edge_cmd vertices_2d c line_width) WireframeCube.EDGES, None)
     /\ length (fst (WireframeCube_render cube s camera c line_width))
        = (length s + 12)%nat)
  /\ (perspective_strength camera + near_depth = 0
      \/ perspective_strength camera + far_depth = 0 ->
      WireframeCube_render cube s camera c line_width
      = (s, Some (Arithmetic ZeroDivisionError))).
Proof.
  intros cube near_depth far_depth.
  assert (Hv : WireframeCube.vertices_3d cube
               = WireframeCube.world_vertices_at (WireframeCube.position cube) sz)
    by apply CubeFacts.after_moves_vertices.
  pose proof (cube_depths (WireframeCube.position cube) sz) as Hz.
  unfold WireframeCube_render, render_solid. rewrite Hv. split.
  - intros [Hn Hf].
    assert (Hoff : Forall (fun p : Point3 => perspective_strength camera + snd p <> 0)
                          (WireframeCube.world_vertices_at
                             (WireframeCube.position cube) sz)).
    { apply (Forall_map_iff (fun p : Point3 => snd p)
                            (fun z => perspective_strength camera + z <> 0)).
      rewrite Hz.
      repeat (apply Forall_cons; [first [exact Hn | exact Hf] |]).
      apply Forall_nil. }
    apply project_points_returns_iff in Hoff as [vertices_2d Hp].
    pose proof (project_points_length _ _ _ Hp) as Hlen.
    rewrite CubeFacts.world_vertices_length in Hlen.
    exists vertices_2d. rewrite Hp.
    rewrite draw_edges_in_range by (rewrite Hlen; reflexivity).
    repeat split; try assumption.
    cbn [fst]. rewrite length_app, length_map. reflexivity.
  - intros Hplane.
    rewrite project_points_raises_on_plane; [reflexivity |].
    apply (proj1 (Exists_map (fun p : Point3 => snd p)
                   (fun z => perspective_strength camera + z = 0) _)).
    rewrite Hz.
    destruct Hplane as [Hn | Hf].
    + apply Exists_cons_hd. exact Hn.
    + do 4 apply Exists_cons_tl. apply Exists_cons_hd. exact Hf.
Qed.

Lemma cube_render_witness :
  exists vertices_2d : list Point2,
    project_points (make 800 600)
      (WireframeCube.vertices_3d (WireframeCube.after_moves (400, 300, 0) 20 []))
    = Ok vertices_2d
    /\ length vertices_2d = 8%nat
    /\ WireframeCube_render (WireframeCube.after_moves (400, 300, 0) 20 []) []
         (make 800 600) (0, 255, 0)%Z 2
       = ([] ++ map (edge_cmd vertices_2d (0, 255, 0)%Z 2) WireframeCube.EDGES, None)
    /\ length (fst (WireframeCube_render (WireframeCube.after_moves (400, 300, 0) 20 [])
                      [] (make 800 600) (0, 255, 0)%Z 2))
       = (length (@nil draw_cmd) + 12)%nat.
Proof.
  apply (proj1 (cube_render (400, 300, 0) 20 [] [] (make 800 600) (0, 255, 0)%Z 2)).
  unfold make, init, default_perspective_strength. simpl. split; lra.
Defined.

End RenderFacts.

(** ** More on the cube *)

Module CubeShape.
Import WireframeCube.

(** X6.  Only the last move counts: a moved cube is the cube one would
    construct at the new centre with the same size. *)
Theorem update_position_overwrites (c : t) (first last : Point3)
    (position_3d : Point3) (sz : R) (moves : list Point3) :
  update_position c last = init last (size c)
  /\ update_position (update_position c first) last = update_position c last
  /\ after_moves position_3d sz (moves ++ [last]) = init last sz.
Proof.
  split; [reflexivity |]. split; [reflexivity |].
  unfold after_moves. rewrite fold_left_app. simpl.
  unfold update_position, _calculate_world_vertices, init. simpl.
  rewrite CubeFacts.moves_keep_size. reflexivity.
Qed.

Lemma sqrt_of_square (x : R) : sqrt (x * x) = Rabs x.
Proof. replace (x * x) with (Rsqr x) by reflexivity. apply sqrt_Rsqr_abs. Qed.

(** World distance between the vertices of two indices. *)
Lemma cube_edge_lengths_at (position : Point3) (sz : R) :
  Forall (fun e : Wire.edge =>
            dist3 (nth (fst e) (world_vertices_at position sz) (0, 0, 0))
                  (nth (snd e) (world_vertices_at position sz) (0, 0, 0))
            = Rabs sz)
         EDGES.
Proof.
  destruct position as [[px py] pz].
  unfold EDGES.
  repeat (apply Forall_cons;
          [ unfold world_vertices_at, UNIT_CUBE_VERTICES, dist3;
            cbn [map nth fst snd];
            rewrite <- sqrt_of_square; f_equal; field |]).
  apply Forall_nil.
Qed.

(** X7.  The twelve edges of a cube all have the length [|size|], wherever the
    cube has been moved. *)
Theorem cube_edges_have_length_size
    (position_3d : Point3) (sz : R) (moves : list Point3) :
  let c := after_moves position_3d sz moves in
  Forall (fun e : Wire.edge =>
            dist3 (nth (fst e) (vertices_3d c) (0, 0, 0))
                  (nth (snd e) (vertices_3d c) (0, 0, 0))
            = Rabs (size c))
         EDGES.
Proof.
  intros c.
  assert (Hsz : size c = sz) by (unfold c, after_moves; apply CubeFacts.moves_keep_size).
  unfold c at 1 2. rewrite CubeFacts.after_moves_vertices, Hsz.
  apply cube_edge_lengths_at.
Qed.

End CubeShape.

(** ** More on the sphere *)

Module SphereMotion.
Import LowPolySphere.

(** Whole multiples of the modulus drop out of a remainder. *)
Lemma float_mod_add_multiple (a m : R) (k : Z) :
  m <> 0 -> float_mod (a + IZR k * m) m = float_mod a m.
Proof.
  intros Hm. unfold float_mod.
  replace ((a + IZR k * m) / m) with (a / m + IZR k) by (field; exact Hm).
  rewrite Zfloor_addz, plus_IZR. ring.
Qed.

(** Taking the remainder early or late makes no difference. *)
Lemma float_mod_add_inner (a b m : R) :
  m <> 0 -> float_mod (float_mod a m + b) m = float_mod (a + b) m.
Proof.
  intros Hm. unfold float_mod at 2.
  replace (a - m * IZR (Zfloor (a / m)) + b)
    with ((a + b) + IZR (- Zfloor (a / m)) * m) by (rewrite opp_IZR; ring).
  apply float_mod_add_multiple. exact Hm.
Qed.

(** X8.  Two updates in a row are one update by the sum of the two time
    steps: the angle and the world vertices do not depend on how the
    elapsed time was cut into frames. *)
Theorem update_adds_time (self : t) (dt1 dt2 : R) :
  update (update self dt1) dt2 = update self (dt1 + dt2).
Proof.
  assert (Ha : float_mod (float_mod (rotation_angle self + rotation_speed self * dt1) 360
                          + rotation_speed self * dt2) 360
               = float_mod (rotation_angle self + rotation_speed self * (dt1 + dt2)) 360).
  { rewrite float_mod_add_inner by lra. f_equal. ring. }
  unfold update, set_vertices_3d, set_rotation_angle, _calculate_world_vertices.
  simpl. rewrite Ha. reflexivity.
Qed.

Lemma step_angle_range (self : t) (c : call) :
  0 <= rotation_angle self < 360 -> 0 <= rotation_angle (step self c) < 360.
Proof.
  intros H. destruct c; simpl; [apply float_mod_range; lra | exact H].
Qed.

(** The angle of a sphere the program holds is always in [[0, 360)]. *)
Lemma after_calls_angle_range (p : Point3) (sz : R) (calls : list call) :
  0 <= rotation_angle (after_calls p sz calls) < 360.
Proof.
  unfold after_calls.
  assert (H0 : 0 <= rotation_angle (init p sz) < 360) by (simpl; lra).
  revert H0. generalize (init p sz).
  induction calls as [| c cs IH]; intros s Hs; simpl.
  - exact Hs.
  - apply IH. apply step_angle_range. exact Hs.
Qed.

(** X9.  Over the reals: a sphere turns at 10 degrees per second, so after
    36 seconds, or any whole multiple of that, forwards or backwards, it
    is exactly as it was.  (In binary64 the sum [angle + 360] is rounded
    before the remainder is taken.) *)
Theorem full_turn_is_identity
    (position_3d : Point3) (sz : R) (calls : list call) (turns : Z) :
  let self := after_calls position_3d sz calls in
  update self (36 * IZR turns) = self.
Proof.
  intros self.
  destruct (SphereFacts.after_calls_frame position_3d sz calls)
    as (_ & Hspeed & _ & _ & Hcons).
  pose proof (after_calls_angle_range position_3d sz calls) as Hrange.
  fold self in Hspeed, Hcons, Hrange.
  assert (Ha : float_mod (rotation_angle self + rotation_speed self * (36 * IZR turns)) 360
               = rotation_angle self).
  { rewrite Hspeed.
    replace (rotation_angle self + 10 * (36 * IZR turns))
      with (rotation_angle self + IZR turns * 360) by ring.
    rewrite float_mod_add_multiple by lra.
    apply float_mod_small. exact Hrange. }
  unfold consistent in Hcons.
  unfold update, set_vertices_3d, set_rotation_angle. simpl. rewrite Ha.
  destruct self as [pos size0 angle speed base verts es]. simpl in *.
  unfold _calculate_world_vertices in *. simpl in *. rewrite <- Hcons.
  reflexivity.
Qed.

End SphereMotion.

Module SphereRender.
Import LowPolySphere Render.

Lemma sphere_vertex_count (p : Point3) (sz : R) (calls : list call) :
  length (vertices_3d (after_calls p sz calls)) = 12%nat.
Proof.
  destruct (SphereFacts.after_calls_frame p sz calls) as (_ & _ & Hb & _ & Hc).
  rewrite Hc. unfold _calculate_world_vertices.
  destruct (position (after_calls p sz calls)) as [[px py] pz].
  rewrite length_map, Hb. reflexivity.
Qed.

(** No coordinate of a point is farther from the centre than the point. *)
Lemma depth_within_distance (w p : Point3) : Rabs (snd w - snd p) <= dist3 w p.
Proof.
  destruct w as [[wx wy] wz]. destruct p as [[px py] pz]. unfold dist3. simpl.
  rewrite <- CubeShape.sqrt_of_square. apply sqrt_le_1_alt.
  pose proof (Rle_0_sqr (wx - px)) as H1. pose proof (Rle_0_sqr (wy - py)) as H2.
  unfold Rsqr in H1, H2. lra.
Qed.

(** X10.  Whatever the camera, [render] of a sphere never runs past the
    vertex list, and it draws thirty lines whenever no world vertex is
    in the camera plane.  Over the reals that is so, at every rotation,
    as long as the centre is more than the radius in front of the camera
    plane. *)
Theorem sphere_render (position_3d : Point3) (sz : R) (calls : list call)
    (s : surface) (camera : PerspectiveCamera.t) (c : color) (line_width : Z) :
  let self := after_calls position_3d sz calls in
  let thirty_lines :=
    exists vertices_2d : list Point2,
      PerspectiveCamera.project_points camera (vertices_3d self) = Ok vertices_2d
      /\ length vertices_2d = 12%nat
      /\ LowPolySphere_render self s camera c line_width
         = (s ++ map (edge_cmd vertices_2d c line_width) _generate_edges, None)
      /\ length (fst (LowPolySphere_render self s camera c line_width))
         = (length s + 30)%nat in
  snd (LowPolySphere_render self s camera c line_width) <> Some IndexError
  /\ (Forall (fun w : Point3 =>
                PerspectiveCamera.perspective_strength camera + snd w <> 0)
             (vertices_3d self) ->
      thirty_lines)
  /\ (Rabs sz < PerspectiveCamera.perspective_strength camera + snd (position self) ->
      thirty_lines).
Proof.
  intros self thirty_lines.
  destruct (SphereFacts.after_calls_frame position_3d sz calls)
    as (_ & _ & _ & He & _).
  pose proof (sphere_vertex_count position_3d sz calls) as Hn.
  fold self in He, Hn.
  assert (Hdraw : Forall (fun w : Point3 =>
                            PerspectiveCamera.perspective_strength camera + snd w <> 0)
                         (vertices_3d self) ->
                  thirty_lines).
  { intros Hoff. unfold thirty_lines, LowPolySphere_render, render_solid. rewrite He.
    apply RenderFacts.project_points_returns_iff in Hoff as [vertices_2d Hp].
    pose proof (RenderFacts.project_points_length _ _ _ Hp) as Hlen.
    rewrite Hn in Hlen. exists vertices_2d. rewrite Hp.
    rewrite RenderFacts.draw_edges_in_range by (rewrite Hlen; reflexivity).
    repeat split; try assumption.
    cbn [fst]. rewrite length_app, length_map. reflexivity. }
  split; [| split; [exact Hdraw |]].
  - unfold LowPolySphere_render, render_solid. rewrite He.
    destruct (PerspectiveCamera.project_points camera (vertices_3d self))
      as [vertices_2d | e] eqn:Hp; [| simpl; discriminate].
    pose proof (RenderFacts.project_points_length _ _ _ Hp) as Hlen.
    rewrite RenderFacts.draw_edges_in_range by (rewrite Hlen, Hn; reflexivity).
    simpl. discriminate.
  - intros Hfront. apply Hdraw.
    eapply Forall_impl; [| exact (SphereFacts.vertices_at_abs_size position_3d sz calls)].
    intros w Hw. fold self in Hw.
    pose proof (depth_within_distance w (position self)) as Hd. rewrite Hw in Hd.
    pose proof (Rle_abs (- (snd w - snd (position self)))) as Hneg.
    rewrite Rabs_Ropp in Hneg. lra.
Qed.

Lemma sphere_render_witness :
  exists vertices_2d : list Point2,
    PerspectiveCamera.project_points (PerspectiveCamera.make 800 600)
      (vertices_3d (after_calls (600, 200, 0) 16 [Update 0.5])) = Ok vertices_2d
    /\ length vertices_2d = 12%nat
    /\ LowPolySphere_render (after_calls (600, 200, 0) 16 [Update 0.5]) []
         (PerspectiveCamera.make 800 600) (255, 0, 0)%Z 2
       = ([] ++ map (edge_cmd vertices_2d (255, 0, 0)%Z 2) _generate_edges, None)
    /\ length (fst (LowPolySphere_render (after_calls (600, 200, 0) 16 [Update 0.5]) []
                      (PerspectiveCamera.make 800 600) (255, 0, 0)%Z 2))
       = (length (@nil draw_cmd) + 30)%nat.
Proof.
  apply (proj2 (proj2 (sphere_render (600, 200, 0) 16 [Update 0.5] []
                         (PerspectiveCamera.make 800 600) (255, 0, 0)%Z 2))).
  unfold PerspectiveCamera.make, PerspectiveCamera.init,
    PerspectiveCamera.default_perspective_strength. simpl.
  rewrite Rabs_pos_eq by lra. lra.
Defined.

End SphereRender.

(** ** More on the colour oscillator *)

Module ColorCycle.
Import ColorEvolution Channels.

(** X12.  Over the reals, the hue, and with it every colour, repeats with
    the cycle duration: a whole number of cycles later (or earlier) each
    method gives what it gives now, and raises if it raises now. *)
Theorem colors_repeat_each_cycle
    (hsv_to_rgb : R -> R -> R -> R * R * R) (self : t) (now : R) (cycles : Z) :
  let later := now + IZR cycles * cycle_duration self in
  get_master_hue self later = get_master_hue self now
  /\ get_snake_color hsv_to_rgb self later = get_snake_color hsv_to_rgb self now
  /\ get_apple_color hsv_to_rgb self later = get_apple_color hsv_to_rgb self now
  /\ get_grid_color hsv_to_rgb self later = get_grid_color hsv_to_rgb self now
  /\ get_ui_color hsv_to_rgb self later = get_ui_color hsv_to_rgb self now.
Proof.
  intros later.
  assert (Hm : get_master_hue self later = get_master_hue self now).
  { unfold later. destruct (Req_dec_T (cycle_duration self) 0) as [E | N].
    - rewrite E, Rmult_0_r, Rplus_0_r. reflexivity.
    - rewrite !(ColorFacts.master_hue_ok _ _ N). f_equal.
      replace ((now + IZR cycles * cycle_duration self - start_time self)
               / cycle_duration self)
        with ((now - start_time self) / cycle_duration self + IZR cycles * 1)
        by (field; exact N).
      apply SphereMotion.float_mod_add_multiple. lra. }
  unfold get_snake_color, get_apple_color, get_grid_color, get_ui_color,
    snake_hsv, apple_hsv, grid_hsv, ui_hsv.
  rewrite Hm. repeat split; reflexivity.
Qed.

Lemma py_int_byte (x : R) : 0 <= x <= 1 -> (0 <= py_int (x * 255) <= 255)%Z.
Proof.
  intros [H0 H1]. unfold py_int.
  destruct (Rle_dec 0 (x * 255)) as [_ | Hneg];
    [| exfalso; apply Hneg; apply Rmult_le_pos; lra].
  split.
  - apply (Zfloor_lub 0). apply Rmult_le_pos; lra.
  - apply Z.le_trans with (Zfloor (IZR 255)).
    + apply Zfloor_le. lra.
    + rewrite ZfloorZ. lia.
Qed.

Lemma to_rgb255_byte (hsv_to_rgb : R -> R -> R -> R * R * R) (h s v : R) :
  unit_rgb (hsv_to_rgb h s v) -> byte_rgb (to_rgb255 hsv_to_rgb (h, s, v)).
Proof.
  unfold to_rgb255, unit_rgb, byte_rgb.
  destruct (hsv_to_rgb h s v) as [[r g] b]. intros (Hr & Hg & Hb).
  repeat split; apply py_int_byte; assumption.
Qed.

(** X13.  Over the reals, with an [hsv_to_rgb] that returns channels between
    0 and 1 for a hue in [[0, 1)], and a cycle duration other than zero,
    each of the four colour methods returns three integers between 0 and
    255: the hue, computed exactly, is in [[0, 1)]. *)
Theorem colors_are_bytes
    (hsv_to_rgb : R -> R -> R -> R * R * R) (self : t) (now : R) :
  well_behaved hsv_to_rgb ->
  cycle_duration self <> 0 ->
  exists snake apple grid ui : Z * Z * Z,
    get_snake_color hsv_to_rgb self now = Ok snake /\ byte_rgb snake
    /\ get_apple_color hsv_to_rgb self now = Ok apple /\ byte_rgb apple
    /\ get_grid_color hsv_to_rgb self now = Ok grid /\ byte_rgb grid
    /\ get_ui_color hsv_to_rgb self now = Ok ui /\ byte_rgb ui.
Proof.
  intros Hwb Hc.
  unfold get_snake_color, get_apple_color, get_grid_color, get_ui_color,
    snake_hsv, apple_hsv, grid_hsv, ui_hsv.
  rewrite (ColorFacts.master_hue_ok _ _ Hc). simpl.
  set (m := float_mod ((now - start_time self) / cycle_duration self) 1).
  assert (Hm : 0 <= m < 1) by (apply float_mod_range; lra).
  assert (Ha : 0 <= float_mod (m + 0.333) 1 < 1) by (apply float_mod_range; lra).
  do 4 eexists.
  repeat split; try reflexivity; apply to_rgb255_byte; apply Hwb; lra.
Qed.

Lemma colors_are_bytes_witness :
  exists snake apple grid ui : Z * Z * Z,
    get_snake_color grey (init 10 0) 5 = Ok snake /\ byte_rgb snake
    /\ get_apple_color grey (init 10 0) 5 = Ok apple /\ byte_rgb apple
    /\ get_grid_color grey (init 10 0) 5 = Ok grid /\ byte_rgb grid
    /\ get_ui_color grey (init 10 0) 5 = Ok ui /\ byte_rgb ui.
Proof.
  apply colors_are_bytes.
  - intros h s v _ _ Hv. unfold grey, unit_rgb. repeat split; lra.
  - simpl. lra.
Defined.

(** With a cycle duration of zero every colour method raises. *)
Lemma colors_raise_without_cycle
    (hsv_to_rgb : R -> R -> R -> R * R * R) (self : t) (now : R) :
  cycle_duration self = 0 ->
  get_snake_color hsv_to_rgb self now = Raise ZeroDivisionError
  /\ get_apple_color hsv_to_rgb self now = Raise ZeroDivisionError
  /\ get_grid_color hsv_to_rgb self now = Raise ZeroDivisionError
  /\ get_ui_color hsv_to_rgb self now = Raise ZeroDivisionError.
Proof.
  intros Hc.
  unfold get_snake_color, get_apple_color, get_grid_color, get_ui_color,
    snake_hsv, apple_hsv, grid_hsv, ui_hsv.
  rewrite (ColorFacts.master_hue_raise _ _ Hc). repeat split; reflexivity.
Qed.

End ColorCycle.

(** ** The snake *)

Module SnakeFacts.
Import Snake SnakeInv.

Lemma opposite_differs (d : Direction.t) : d <> Direction.opposite d.
Proof. destruct d; discriminate. Qed.

Lemma direction_eqb_eq (a b : Direction.t) : Direction.eqb a b = true <-> a = b.
Proof. destruct a, b; simpl; split; intros H; try reflexivity; discriminate H. Qed.

Lemma connected_removelast (cells : list cell) :
  connected cells -> connected (removelast cells).
Proof.
  induction cells as [| a [| b [| c rest]] IH]; simpl; intros H; try exact I.
  destruct H as [Hab Hrest]. split; [exact Hab |]. apply IH. exact Hrest.
Qed.

Lemma removelast_length (cells : list cell) :
  cells <> [] -> S (length (removelast cells)) = length cells.
Proof.
  induction cells as [| a [| b rest] IH]; intros Hne.
  - contradiction.
  - reflexivity.
  - change (S (S (length (removelast (b :: rest)))) = S (length (b :: rest))).
    f_equal. apply IH. discriminate.
Qed.

Ltac snake_fields :=
  cbn [body direction next_direction grow_pending cubes camera
       grow set_direction reset].

Lemma reset_holds (self : t) : holds (reset self) 0.
Proof.
  constructor; simpl.
  - lia.
  - discriminate.
  - repeat split; exists Direction.RIGHT; reflexivity.
  - reflexivity.
  - lia.
  - reflexivity.
  - reflexivity.
Qed.

Lemma set_direction_holds (self : t) (d : Direction.t) (grown : Z) :
  holds self grown -> holds (set_direction self d) grown.
Proof.
  intros [H1 H2 H3 H4 H5 H6 H7]. unfold set_direction.
  destruct (Direction.eqb d (Direction.opposite (direction self))) eqn:E;
    cbn [negb].
  - constructor; assumption.
  - constructor; snake_fields; try assumption.
    intros Heq. apply direction_eqb_eq in Heq. congruence.
Qed.

Lemma grow_holds (self : t) (grown : Z) :
  holds self grown -> holds (grow self) (grown + 1).
Proof.
  intros [H1 H2 H3 H4 H5 H6 H7].
  constructor; snake_fields; try assumption; lia.
Qed.

Lemma move_holds (self : t) (grown : Z) :
  holds self grown -> exists self' : t, move self = Some self' /\ holds self' grown.
Proof.
  intros [H1 H2 H3 H4 H5 H6 H7]. unfold move.
  destruct (body self) as [| [hx hy] [| n [| m rest]]] eqn:Hb;
    try (cbn [length] in H1; lia).
  destruct (Direction.value (next_direction self)) as [dx dy] eqn:Hv.
  eexists. split; [reflexivity |].
  assert (Hadj : adjacent (hx + dx, hy + dy)%Z (hx, hy)).
  { exists (next_direction self). rewrite Hv. reflexivity. }
  destruct (grow_pending self >? 0)%Z eqn:Hg.
  - apply Z.gtb_lt in Hg.
    constructor; snake_fields.
    + cbn [length] in *. lia.
    + apply opposite_differs.
    + split; [exact Hadj | exact H3].
    + unfold head_leads. snake_fields. rewrite Hv. reflexivity.
    + lia.
    + reflexivity.
    + cbn [length] in *. lia.
  - assert (Hg' : (grow_pending self <= 0)%Z)
      by (destruct (Z.gtb_spec (grow_pending self) 0); [discriminate | lia]).
    pose proof (removelast_length ((hx + dx, hy + dy)%Z :: (hx, hy) :: n :: m :: rest)
                  ltac:(discriminate)) as Hl.
    cbn [length] in Hl, H1, H7. apply eq_add_S in Hl.
    constructor; snake_fields; unfold cell in *; try rewrite Hl.
    + lia.
    + apply opposite_differs.
    + apply connected_removelast. split; [exact Hadj | exact H3].
    + unfold head_leads. snake_fields.
      change (removelast ((hx + dx, hy + dy)%Z :: (hx, hy) :: n :: m :: rest))
        with ((hx + dx, hy + dy)%Z :: (hx, hy) :: removelast (n :: m :: rest)).
      rewrite Hv. reflexivity.
    + exact H5.
    + reflexivity.
    + lia.
Qed.

(** No call sequence makes a snake raise, and every snake it leads to
    satisfies the invariant. *)
Lemma steps_hold (calls : list call) (self : t) (grown : Z) :
  holds self grown ->
  exists self' : t,
    steps self calls = Some self' /\ holds self' (grown + grows calls).
Proof.
  revert self grown. induction calls as [| c rest IH]; intros self grown H.
  - exists self. split; [reflexivity |].
    unfold grows. simpl. rewrite Z.add_0_r. exact H.
  - assert (Hstep : exists s1, step self c = Some s1
                               /\ holds s1 (grown + grows [c])).
    { destruct c; unfold grows; simpl.
      - eexists. split; [reflexivity |]. rewrite Z.add_0_r.
        apply set_direction_holds. exact H.
      - destruct (move_holds self grown H) as (s1 & Hm & Hs1).
        exists s1. rewrite Z.add_0_r. split; assumption.
      - eexists. split; [reflexivity |]. apply grow_holds. exact H. }
    destruct Hstep as (s1 & Hs1 & Hinv1).
    destruct (IH s1 _ Hinv1) as (s2 & Hs2 & Hinv2).
    exists s2. simpl. rewrite Hs1. split; [exact Hs2 |].
    replace (grown + grows (c :: rest))%Z
      with (grown + grows [c] + grows rest)%Z; [exact Hinv2 |].
    unfold grows. destruct c; simpl; lia.
Qed.

Lemma after_calls_hold (camera : PerspectiveCamera.t) (calls : list call) :
  exists self : t,
    steps (init camera) calls = Some self /\ holds self (grows calls).
Proof.
  destruct (steps_hold calls (init camera) 0 (reset_holds _)) as (s & Hs & Hinv).
  exists s. split; [exact Hs | exact Hinv].
Qed.

End SnakeFacts.

Module SnakeTheorems.
Import Snake SnakeInv SnakeFacts.

(** X14.  From a reset on, no sequence of [set_direction], [move] and [grow]
    calls raises: the body never gets shorter than its three starting
    segments, so [move] and [check_collision] always find a head.  The
    length of the body plus the growth still pending is 3 plus the number
    of [grow] calls. *)
Theorem snake_calls_never_raise (camera : PerspectiveCamera.t) (calls : list call) :
  exists self : t,
    steps (init camera) calls = Some self
    /\ (3 <= length (body self))%nat
    /\ (0 <= grow_pending self)%Z
    /\ (Z.of_nat (length (body self)) + grow_pending self = 3 + grows calls)%Z
    /\ (exists moved : t, move self = Some moved)
    /\ (exists hit : bool, check_collision self = Some hit).
Proof.
  destruct (after_calls_hold camera calls) as (self & Hs & Hinv).
  exists self. split; [exact Hs |].
  destruct (move_holds self _ Hinv) as (moved & Hm & _).
  destruct Hinv as [H1 _ _ _ H5 _ H7].
  repeat split; try assumption.
  - exists moved. exact Hm.
  - unfold check_collision. destruct (body self) as [| h rest].
    + simpl in H1. lia.
    + destruct ((fst h <? 0) || (fst h >=? Const.GRID_WIDTH)
                || (snd h <? 0) || (snd h >=? Const.GRID_HEIGHT))%Z;
        [eexists; reflexivity |].
      destruct (cell_in h rest); eexists; reflexivity.
Qed.

(** X15.  The snake cannot turn back on itself, however the direction keys are
    pressed between two moves: a move never goes opposite to the move
    before it, and the new head is never the cell of the segment behind
    the old head. *)
Theorem snake_never_reverses (camera : PerspectiveCamera.t) (calls : list call) :
  exists self moved : t,
    steps (init camera) calls = Some self
    /\ move self = Some moved
    /\ direction moved <> Direction.opposite (direction self)
    /\ hd (0, 0)%Z (body moved) <> nth 1 (body self) (0, 0)%Z.
Proof.
  destruct (after_calls_hold camera calls) as (self & Hs & Hinv).
  destruct (move_holds self _ Hinv) as (moved & Hm & _).
  exists self, moved. split; [exact Hs |]. split; [exact Hm |].
  destruct Hinv as [H1 H2 _ H4 _ _ _].
  unfold move in Hm. unfold head_leads in H4.
  destruct (body self) as [| [hx hy] [| [nx ny] rest]] eqn:Hb;
    try (simpl in H1; lia).
  destruct (Direction.value (next_direction self)) as [dx dy] eqn:Hv.
  injection Hm as <-. cbn [direction body]. split; [exact H2 |].
  assert (Hhead : forall l : list cell,
            hd (0, 0)%Z (if (grow_pending self >? 0)%Z
                         then (hx + dx, hy + dy)%Z :: (hx, hy) :: (nx, ny) :: l
                         else removelast ((hx + dx, hy + dy)%Z :: (hx, hy) :: (nx, ny) :: l))
            = (hx + dx, hy + dy)%Z).
  { intros l. destruct (grow_pending self >? 0)%Z; reflexivity. }
  rewrite Hhead. cbn [nth].
  injection H4 as Hx Hy. intros Heq. injection Heq as Ex Ey.
  apply H2.
  destruct (direction self), (next_direction self);
    simpl in Hx, Hy, Hv; injection Hv as <- <-;
    first [reflexivity | exfalso; lia].
Qed.

Lemma adjacent_manhattan (a b : cell) : adjacent a b -> Grid.manhattan a b = 1%Z.
Proof.
  intros [d ->]. unfold Grid.manhattan. destruct d; simpl; lia.
Qed.

Lemma connected_nth (cells : list cell) (i : nat) :
  connected cells ->
  (S i < length cells)%nat ->
  adjacent (nth i cells (0, 0)%Z) (nth (S i) cells (0, 0)%Z).
Proof.
  revert i. induction cells as [| a [| b rest] IH]; intros i Hc Hi.
  - simpl in Hi. lia.
  - simpl in Hi. lia.
  - destruct Hc as [Hab Hrest]. destruct i as [| i].
    + exact Hab.
    + apply (IH i Hrest). simpl in Hi. simpl. lia.
Qed.

(** X16.  The body is always one unbroken chain: each segment is exactly one
    step, up, down, left or right, from the next. *)
Theorem snake_body_is_a_chain (camera : PerspectiveCamera.t) (calls : list call) :
  exists self : t,
    steps (init camera) calls = Some self
    /\ forall i : nat,
         (S i < length (body self))%nat ->
         Grid.manhattan (nth i (body self) (0, 0)%Z)
                        (nth (S i) (body self) (0, 0)%Z) = 1%Z.
Proof.
  destruct (after_calls_hold camera calls) as (self & Hs & Hinv).
  exists self. split; [exact Hs |].
  intros i Hi. apply adjacent_manhattan.
  apply connected_nth; [apply (body_connected _ _ Hinv) | exact Hi].
Qed.

End SnakeTheorems.

Module SnakeRender.
Import Snake SnakeInv SnakeFacts Render.

(** Drawing a freshly constructed cube whose faces are off the camera
    plane. *)
Lemma init_cube_render (p : Point3) (sz : R) (s : surface)
    (camera : PerspectiveCamera.t) (c : color) (line_width : Z) :
  PerspectiveCamera.perspective_strength camera + snd p - sz / 2 <> 0 ->
  PerspectiveCamera.perspective_strength camera + snd p + sz / 2 <> 0 ->
  exists cmds : list draw_cmd,
    WireframeCube_render (WireframeCube.init p sz) s camera c line_width
    = (s ++ cmds, None)
    /\ length cmds = 12%nat.
Proof.
  intros Hn Hf. unfold WireframeCube_render, render_solid. cbn [WireframeCube.init
    WireframeCube.vertices_3d].
  pose proof (RenderFacts.cube_depths p sz) as Hz.
  assert (Hoff : Forall (fun w : Point3 =>
                           PerspectiveCamera.perspective_strength camera + snd w <> 0)
                        (WireframeCube.world_vertices_at p sz)).
  { apply (RenderFacts.Forall_map_iff (fun w : Point3 => snd w)
             (fun z => PerspectiveCamera.perspective_strength camera + z <> 0)).
    rewrite Hz.
    repeat (apply Forall_cons; [intros E; first [apply Hn | apply Hf]; lra |]).
    apply Forall_nil. }
  apply RenderFacts.project_points_returns_iff in Hoff as [vertices_2d Hp].
  pose proof (RenderFacts.project_points_length _ _ _ Hp) as Hlen.
  rewrite CubeFacts.world_vertices_length in Hlen. rewrite Hp.
  rewrite RenderFacts.draw_edges_in_range by (rewrite Hlen; reflexivity).
  eexists. split; [reflexivity |]. rewrite length_map. reflexivity.
Qed.

Lemma render_cells (cells : list cell) (s : surface)
    (camera : PerspectiveCamera.t) (c : color) :
  PerspectiveCamera.perspective_strength camera <> 10 ->
  PerspectiveCamera.perspective_strength camera <> -10 ->
  exists cmds : list draw_cmd,
    render_cubes (map _create_cube_for_cell cells) s camera c = (s ++ cmds, None)
    /\ length cmds = (12 * length cells)%nat.
Proof.
  intros Hn Hf. revert s. induction cells as [| [x y] rest IH]; intros s.
  - exists []. simpl. rewrite app_nil_r. split; reflexivity.
  - cbn [map render_cubes].
    destruct (init_cube_render
                (IZR (x * Const.CELL_SIZE) + IZR Const.CELL_SIZE / 2,
                 IZR (y * Const.CELL_SIZE) + IZR Const.CELL_SIZE / 2, 0)
                Const.CUBE_SIZE s camera c Const.CUBE_LINE_WIDTH)
      as (first & Hfirst & Hlen1).
    + unfold Const.CUBE_SIZE. cbn [snd]. lra.
    + unfold Const.CUBE_SIZE. cbn [snd]. lra.
    + unfold _create_cube_for_cell. rewrite Hfirst.
      destruct (IH (s ++ first)) as (others & Hothers & Hlen2).
      unfold _create_cube_for_cell in Hothers. rewrite Hothers.
      exists (first ++ others). rewrite app_assoc. split; [reflexivity |].
      rewrite length_app, Hlen1, Hlen2. simpl length. lia.
Qed.

(** X17.  The snake always has one cube per body segment, the cube of the
    segment's cell; with a camera whose strength is not 10 or -10 ---
    the cubes' faces are at depths -10 and 10 --- [render] draws twelve
    lines per segment and does not raise. *)
Theorem snake_cubes_follow_body (camera : PerspectiveCamera.t) (calls : list call)
    (s : surface) (c : color) :
  exists self : t,
    steps (init camera) calls = Some self
    /\ Snake.camera self = camera
    /\ cubes self = map _create_cube_for_cell (body self)
    /\ (PerspectiveCamera.perspective_strength camera <> 10 ->
        PerspectiveCamera.perspective_strength camera <> -10 ->
        exists cmds : list draw_cmd,
          render self s c = (s ++ cmds, None)
          /\ length cmds = (12 * length (body self))%nat).
Proof.
  assert (Hcam : forall (l : list call) (a b : t),
            steps a l = Some b -> Snake.camera b = Snake.camera a).
  { induction l as [| k l IH]; intros a b H.
    - injection H as <-. reflexivity.
    - simpl in H. destruct (step a k) as [a' |] eqn:Hk; [| discriminate H].
      rewrite (IH _ _ H). destruct k; simpl in Hk.
      + injection Hk as <-. unfold set_direction.
        destruct (negb _); reflexivity.
      + unfold move in Hk. destruct (body a) as [| [hx hy] tl]; [discriminate Hk |].
        destruct (Direction.value (next_direction a)). injection Hk as <-. reflexivity.
      + injection Hk as <-. reflexivity. }
  destruct (after_calls_hold camera calls) as (self & Hs & Hinv).
  exists self. split; [exact Hs |].
  pose proof (Hcam _ _ _ Hs) as Hc. cbn [init reset Snake.camera] in Hc.
  split; [exact Hc |]. split; [apply (cubes_in_sync _ _ Hinv) |].
  intros Hn Hf. unfold render. rewrite (cubes_in_sync _ _ Hinv), Hc.
  apply render_cells; assumption.
Qed.

Lemma snake_cubes_follow_body_witness :
  exists self : t,
    steps (init (PerspectiveCamera.make 800 600)) [SetDirection Direction.UP; Move; Grow; Move]
    = Some self
    /\ exists cmds : list draw_cmd,
         render self [] (0, 255, 0)%Z = ([] ++ cmds, None)
         /\ length cmds = (12 * length (body self))%nat.
Proof.
  destruct (snake_cubes_follow_body (PerspectiveCamera.make 800 600)
              [SetDirection Direction.UP; Move; Grow; Move] [] (0, 255, 0)%Z)
    as (self & Hs & Hc & _ & Hr).
  exists self. split; [exact Hs |].
  apply Hr; unfold PerspectiveCamera.make, PerspectiveCamera.init,
    PerspectiveCamera.default_perspective_strength; simpl; lra.
Defined.

End SnakeRender.

(** ** The game *)

Module SpawnFacts.
Import Const Game GameInv.

Lemma cell_eqb_eq (a b : Snake.cell) : Snake.cell_eqb a b = true <-> a = b.
Proof.
  destruct a as [ax ay], b as [bx by_]. unfold Snake.cell_eqb. simpl.
  rewrite andb_true_iff, !Z.eqb_eq. split.
  - intros [-> ->]. reflexivity.
  - intros H. injection H as -> ->. split; reflexivity.
Qed.

Lemma cell_in_In (c : Snake.cell) (cells : list Snake.cell) :
  Snake.cell_in c cells = true <-> In c cells.
Proof.
  unfold Snake.cell_in. rewrite existsb_exists. split.
  - intros (x & Hin & Heq). apply cell_eqb_eq in Heq. subst x. exact Hin.
  - intros Hin. exists c. split; [exact Hin | apply cell_eqb_eq; reflexivity].
Qed.

Lemma cell_in_not_In (c : Snake.cell) (cells : list Snake.cell) :
  Snake.cell_in c cells = false <-> ~ In c cells.
Proof.
  rewrite <- cell_in_In. destruct (Snake.cell_in c cells); split; intros H;
    try reflexivity; try discriminate; try (intros E; discriminate E).
  exfalso. apply H. reflexivity.
Qed.

Lemma randint_range (a b draw : Z) :
  (a <= b)%Z -> (a <= randint a b draw <= b)%Z.
Proof.
  intros Hab. unfold randint.
  pose proof (Z.mod_pos_bound draw (b - a + 1) ltac:(lia)). lia.
Qed.

Lemma drawn_cell_in_grid (draw_x draw_y : Z) :
  Snake.in_grid (randint 0 (GRID_WIDTH - 1) draw_x, randint 0 (GRID_HEIGHT - 1) draw_y).
Proof.
  unfold Snake.in_grid, GRID_WIDTH, GRID_HEIGHT. cbn [fst snd].
  pose proof (randint_range 0 (20 - 1) draw_x ltac:(lia)).
  pose proof (randint_range 0 (15 - 1) draw_y ltac:(lia)). lia.
Qed.

Lemma drawn_cells_in_grid (draws : list Z) :
  Forall Snake.in_grid (drawn_cells draws).
Proof.
  assert (H : forall n (l : list Z), (length l <= n)%nat ->
                Forall Snake.in_grid (drawn_cells l)).
  { induction n as [| n IH]; intros l Hl.
    - destruct l; [constructor | simpl in Hl; lia].
    - destruct l as [| x [| y rest]]; try constructor.
      + apply drawn_cell_in_grid.
      + apply IH. simpl in Hl. lia. }
  apply (H (length draws)). lia.
Qed.

Lemma spawn_apple_spec (self : t) (draws : list Z) :
  match spawn_apple self draws with
  | Finished (g, rest) =>
      exists (taken : list Snake.cell) (a : Snake.cell),
        drawn_cells draws = taken ++ a :: drawn_cells rest
        /\ Forall (fun c => Snake.cell_in c (Snake.body (snake self)) = true) taken
        /\ Snake.cell_in a (Snake.body (snake self)) = false
        /\ Snake.in_grid a
        /\ g = place_apple self (fst a) (snd a)
  | Threw _ => False
  | Unfinished =>
      Forall (fun c => Snake.cell_in c (Snake.body (snake self)) = true)
             (drawn_cells draws)
  end.
Proof.
  assert (H : forall n (l : list Z), (length l <= n)%nat ->
    match spawn_apple self l with
    | Finished (g, rest) =>
        exists (taken : list Snake.cell) (a : Snake.cell),
          drawn_cells l = taken ++ a :: drawn_cells rest
          /\ Forall (fun c => Snake.cell_in c (Snake.body (snake self)) = true) taken
          /\ Snake.cell_in a (Snake.body (snake self)) = false
          /\ Snake.in_grid a
          /\ g = place_apple self (fst a) (snd a)
    | Threw _ => False
    | Unfinished =>
        Forall (fun c => Snake.cell_in c (Snake.body (snake self)) = true)
               (drawn_cells l)
    end).
  { induction n as [| n IH]; intros l Hl.
    - destruct l; [simpl; constructor | simpl in Hl; lia].
    - destruct l as [| x [| y rest]]; try (simpl; constructor).
      cbn [spawn_apple drawn_cells].
      destruct (Snake.cell_in (randint 0 (GRID_WIDTH - 1) x,
                               randint 0 (GRID_HEIGHT - 1) y)
                              (Snake.body (snake self))) eqn:Hin; cbn [negb].
      + specialize (IH rest ltac:(simpl in Hl; lia)).
        destruct (spawn_apple self rest) as [[g rest'] | e |].
        * destruct IH as (taken & a & Heq & Htaken & Hfree & Hgrid & Hg).
          exists ((randint 0 (GRID_WIDTH - 1) x, randint 0 (GRID_HEIGHT - 1) y) :: taken), a.
          rewrite Heq. split; [reflexivity |].
          split; [constructor; assumption |].
          split; [exact Hfree |]. split; [exact Hgrid | exact Hg].
        * exact IH.
        * constructor; assumption.
      + exists [], (randint 0 (GRID_WIDTH - 1) x, randint 0 (GRID_HEIGHT - 1) y).
        split; [reflexivity |]. split; [constructor |].
        split; [exact Hin |]. split; [apply drawn_cell_in_grid | reflexivity]. }
  apply (H (length draws)). lia.
Qed.

(** X18.  [spawn_apple] never raises.  When it returns, the apple is the first
    drawn cell that is not on the snake: a cell of the grid, free, after
    a run of drawn cells that were all taken; two draws were used for
    each cell tried and the others are left; nothing else in the game
    changes.  It is still looping at the end of the draws exactly when
    every cell drawn was on the snake. *)
Theorem spawn_apple_takes_first_free_cell (self : t) (draws : list Z) :
  match spawn_apple self draws with
  | Finished (g, rest) =>
      exists (used : list Z) (taken : list Snake.cell) (a : Snake.cell),
        draws = used ++ rest
        /\ drawn_cells used = taken ++ [a]
        /\ length used = (2 * length taken + 2)%nat
        /\ Forall (fun c => Snake.cell_in c (Snake.body (snake self)) = true) taken
        /\ Snake.cell_in a (Snake.body (snake self)) = false
        /\ Snake.in_grid a
        /\ g = place_apple self (fst a) (snd a)
  | Threw _ => False
  | Unfinished =>
      Forall (fun c => Snake.cell_in c (Snake.body (snake self)) = true)
             (drawn_cells draws)
  end.
Proof.
  assert (H : forall n (l : list Z), (length l <= n)%nat ->
    match spawn_apple self l with
    | Finished (g, rest) =>
        exists (used : list Z) (taken : list Snake.cell) (a : Snake.cell),
          l = used ++ rest
          /\ drawn_cells used = taken ++ [a]
          /\ length used = (2 * length taken + 2)%nat
          /\ Forall (fun c => Snake.cell_in c (Snake.body (snake self)) = true) taken
          /\ Snake.cell_in a (Snake.body (snake self)) = false
          /\ Snake.in_grid a
          /\ g = place_apple self (fst a) (snd a)
    | Threw _ => False
    | Unfinished =>
        Forall (fun c => Snake.cell_in c (Snake.body (snake self)) = true)
               (drawn_cells l)
    end).
  { induction n as [| n IH]; intros l Hl.
    - destruct l; [simpl; constructor | simpl in Hl; lia].
    - destruct l as [| x [| y rest]]; try (simpl; constructor).
      cbn [spawn_apple drawn_cells].
      destruct (Snake.cell_in (randint 0 (GRID_WIDTH - 1) x,
                               randint 0 (GRID_HEIGHT - 1) y)
                              (Snake.body (snake self))) eqn:Hin; cbn [negb].
      + specialize (IH rest ltac:(simpl in Hl; lia)).
        destruct (spawn_apple self rest) as [[g rest'] | e |].
        * destruct IH as (used & taken & a & Hl' & Hd & Hlen & Htaken & Hfree & Hgrid & Hg).
          exists (x :: y :: used),
                 ((randint 0 (GRID_WIDTH - 1) x, randint 0 (GRID_HEIGHT - 1) y) :: taken),
                 a.
          split; [rewrite Hl'; reflexivity |].
          split; [cbn [drawn_cells]; rewrite Hd; reflexivity |].
          split; [simpl length; lia |].
          split; [constructor; assumption |].
          split; [exact Hfree |]. split; [exact Hgrid | exact Hg].
        * exact IH.
        * constructor; assumption.
      + exists [x; y], [],
               (randint 0 (GRID_WIDTH - 1) x, randint 0 (GRID_HEIGHT - 1) y).
        split; [reflexivity |]. split; [reflexivity |]. split; [reflexivity |].
        split; [constructor |].
        split; [exact Hin |]. split; [apply drawn_cell_in_grid | reflexivity]. }
  apply (H (length draws)). lia.
Qed.

Lemma in_grid_all_cells (c : Snake.cell) : Snake.in_grid c -> In c all_cells.
Proof.
  destruct c as [x y]. unfold Snake.in_grid, all_cells, GRID_WIDTH, GRID_HEIGHT.
  cbn [fst snd]. intros [Hx Hy].
  apply in_prod; apply in_map_iff.
  - exists (Z.to_nat x). split; [lia |]. apply in_seq.
    change (Z.to_nat 20) with 20%nat. lia.
  - exists (Z.to_nat y). split; [lia |]. apply in_seq.
    change (Z.to_nat 15) with 15%nat. lia.
Qed.

(** X19.  On a board the snake fills completely, [spawn_apple] has no cell to
    find: it loops for as long as there are draws. *)
Theorem spawn_apple_loops_on_full_board (self : t) (draws : list Z) :
  forallb (fun c => Snake.cell_in c (Snake.body (snake self))) all_cells = true ->
  spawn_apple self draws = Unfinished.
Proof.
  intros Hfull. rewrite forallb_forall in Hfull.
  pose proof (spawn_apple_spec self draws) as Hspec.
  destruct (spawn_apple self draws) as [[g rest] | e |].
  - destruct Hspec as (taken & a & _ & _ & Hfree & Hgrid & _).
    rewrite (Hfull a (in_grid_all_cells a Hgrid)) in Hfree. discriminate Hfree.
  - contradiction.
  - reflexivity.
Qed.

End SpawnFacts.

Module GameFacts.
Import Const Game GameInv SpawnFacts.

Lemma speed_bounds (g : t) : core g -> (8 <= speed g <= 20)%Z.
Proof.
  intros H. rewrite (speed_formula g H).
  pose proof (score_nonneg g H) as Hs.
  unfold MAX_SPEED, STARTING_SPEED, SPEED_TRIGGER.
  pose proof (Z.div_pos (score g) 5 Hs ltac:(lia)). lia.
Qed.

Lemma speed_step (sc sp : Z) :
  (0 <= sc)%Z ->
  sp = Z.min 20 (8 + sc / 5) ->
  (if (((sc + 1) mod 5 =? 0) && (sp <? 20))%Z then (sp + 1)%Z else sp)
  = Z.min 20 (8 + (sc + 1) / 5).
Proof.
  intros Hsc Hsp.
  pose proof (Z.div_mod sc 5 ltac:(lia)) as D1.
  pose proof (Z.div_mod (sc + 1) 5 ltac:(lia)) as D2.
  pose proof (Z.mod_pos_bound sc 5 ltac:(lia)) as B1.
  pose proof (Z.mod_pos_bound (sc + 1) 5 ltac:(lia)) as B2.
  destruct (Z.eqb_spec ((sc + 1) mod 5) 0) as [E | N];
    destruct (Z.ltb_spec sp 20) as [L | G]; cbn [andb]; lia.
Qed.

Lemma removelast_incl {A : Type} (l : list A) : incl (removelast l) l.
Proof.
  induction l as [| a [| b rest] IH]; intros x Hx.
  - exact Hx.
  - destruct Hx.
  - destruct Hx as [<- | Hx]; [left; reflexivity | right; apply IH; exact Hx].
Qed.

Lemma removelast_NoDup {A : Type} (l : list A) : NoDup l -> NoDup (removelast l).
Proof.
  induction l as [| a [| b rest] IH]; intros H.
  - constructor.
  - constructor.
  - inversion H as [| ? ? Hnotin Hrest]; subst.
    change (NoDup (a :: removelast (b :: rest))). constructor.
    + intros Hin. apply Hnotin. apply removelast_incl. exact Hin.
    + apply IH. exact Hrest.
Qed.

(** The body after a move: the new head, in front of the old body or of
    the old body without its last segment. *)
Lemma move_shape (s s' : Snake.t) :
  Snake.move s = Some s' ->
  exists (new_head : Snake.cell) (rest : list Snake.cell),
    Snake.body s' = new_head :: rest
    /\ incl rest (Snake.body s)
    /\ (NoDup (Snake.body s) -> NoDup rest)
    /\ Snake.grow_pending s'
       = (if (Snake.grow_pending s >? 0)%Z then Snake.grow_pending s - 1
          else Snake.grow_pending s)%Z
    /\ Snake.camera s' = Snake.camera s.
Proof.
  unfold Snake.move. destruct (Snake.body s) as [| [hx hy] tl] eqn:Hb;
    [discriminate |].
  destruct (Direction.value (Snake.next_direction s)) as [dx dy].
  intros H. injection H as <-. cbn [Snake.body Snake.grow_pending Snake.camera].
  destruct (Snake.grow_pending s >? 0)%Z.
  - exists (hx + dx, hy + dy)%Z, ((hx, hy) :: tl).
    repeat split; try reflexivity; [apply incl_refl | intros H; exact H].
  - exists (hx + dx, hy + dy)%Z, (removelast ((hx, hy) :: tl)).
    repeat split; try reflexivity; [apply removelast_incl | apply removelast_NoDup].
Qed.

Lemma check_collision_false (s : Snake.t) (head : Snake.cell) (rest : list Snake.cell) :
  Snake.body s = head :: rest ->
  Snake.check_collision s = Some false ->
  Snake.in_grid head /\ Snake.cell_in head rest = false.
Proof.
  intros Hb. unfold Snake.check_collision. rewrite Hb.
  destruct ((fst head <? 0) || (fst head >=? GRID_WIDTH)
            || (snd head <? 0) || (snd head >=? GRID_HEIGHT))%Z eqn:Hwall;
    [discriminate |].
  destruct (Snake.cell_in head rest) eqn:Hin; [discriminate |].
  intros _. split; [| reflexivity].
  apply orb_false_elim in Hwall as [Hwall H4].
  apply orb_false_elim in Hwall as [Hwall H3].
  apply orb_false_elim in Hwall as [H1 H2].
  unfold Snake.in_grid. lia.
Qed.

Lemma check_collision_true (s : Snake.t) (head : Snake.cell) (rest : list Snake.cell) :
  Snake.body s = head :: rest ->
  Snake.check_collision s = Some true ->
  ~ Snake.in_grid head \/ Snake.cell_in head rest = true.
Proof.
  intros Hb. unfold Snake.check_collision. rewrite Hb.
  destruct ((fst head <? 0) || (fst head >=? GRID_WIDTH)
            || (snd head <? 0) || (snd head >=? GRID_HEIGHT))%Z eqn:Hwall.
  - intros _. left. unfold Snake.in_grid. intros [Hx Hy].
    apply orb_true_iff in Hwall as [Hwall | H4]; [| lia].
    apply orb_true_iff in Hwall as [Hwall | H3]; [| lia].
    apply orb_true_iff in Hwall as [H1 | H2]; lia.
  - destruct (Snake.cell_in head rest); [intros _; right; reflexivity | discriminate].
Qed.

Lemma place_apple_core (g : t) (x y : Z) : core g -> core (place_apple g x y).
Proof. intros [H1 H2 H3 H4 H5 H6 H7 H8 Hov H9]. constructor; assumption. Qed.

Lemma spawn_holds (g0 g : t) (draws rest : list Z) :
  core g0 -> spawn_apple g0 draws = Finished (g, rest) -> holds g.
Proof.
  intros Hcore Hspawn. pose proof (spawn_apple_spec g0 draws) as Hspec.
  rewrite Hspawn in Hspec.
  destruct Hspec as (taken & a & _ & _ & Hfree & Hgrid & ->).
  split; [apply place_apple_core; exact Hcore |].
  exists a, []. destruct a as [x y].
  split; [reflexivity |]. split; [exact Hgrid |]. split; [exact Hfree | reflexivity].
Qed.

Lemma spawn_never_throws (g0 : t) (draws : list Z) (e : game_exn) :
  spawn_apple g0 draws <> Threw e.
Proof.
  pose proof (spawn_apple_spec g0 draws) as Hspec. intros H.
  rewrite H in Hspec. exact Hspec.
Qed.

Lemma fresh_body_clear :
  NoDup [(10, 7); (9, 7); (8, 7)]%Z
  /\ Forall Snake.in_grid [(10, 7); (9, 7); (8, 7)]%Z.
Proof.
  split.
  - repeat constructor; simpl; intuition congruence.
  - repeat constructor; simpl; lia.
Qed.

Lemma init_holds (f : highscore_file) (now : R) (draws rest : list Z) (g : t) :
  init f now draws = Finished (g, rest) -> holds g.
Proof.
  unfold init. apply spawn_holds.
  constructor; cbn [snake score speed file high_score state move_timer camera].
  - apply SnakeFacts.reset_holds.
  - simpl. lia.
  - lia.
  - reflexivity.
  - reflexivity.
  - left. reflexivity.
  - intros _. exact fresh_body_clear.
  - unfold STARTING_SPEED. lra.
  - discriminate.
  - split; reflexivity.
Qed.

Lemma start_game_holds (g g' : t) (draws rest : list Z) :
  core g -> start_game g draws = Finished (g', rest) -> holds g'.
Proof.
  intros Hc. unfold start_game. apply spawn_holds.
  constructor; cbn [snake score speed file high_score state move_timer camera].
  - apply SnakeFacts.reset_holds.
  - simpl. lia.
  - lia.
  - reflexivity.
  - apply (high_score_saved g Hc).
  - left. reflexivity.
  - intros _. exact fresh_body_clear.
  - unfold STARTING_SPEED. lra.
  - discriminate.
  - destruct (cameras g Hc) as [Hcam Hsn]. split; [exact Hcam |].
    cbn [Snake.reset Snake.camera]. exact Hsn.
Qed.

Import Collect.

Ltac game_fields :=
  cbn [snake score speed file high_score state move_timer camera apple_pos
       apple_sphere color_system game_over with_state with_snake save_high_score].

Lemma collect_apple_collected (g : t) (draws : list Z) :
  collect_apple g draws = spawn_apple (collected g) draws.
Proof. reflexivity. Qed.

Lemma collected_fields (g : t) :
  snake (collected g) = Snake.grow (snake g)
  /\ score (collected g) = (score g + 1)%Z
  /\ state (collected g) = state g
  /\ move_timer (collected g) = move_timer g
  /\ camera (collected g) = camera g
  /\ high_score (collected g)
     = (if (score g + 1 >? high_score g)%Z then (score g + 1)%Z else high_score g)
  /\ file (collected g)
     = (if (score g + 1 >? high_score g)%Z then Stored (Some (score g + 1)%Z)
        else file g)
  /\ speed (collected g)
     = (if (((score g + 1) mod SPEED_TRIGGER =? 0) && (speed g <? MAX_SPEED))%Z
        then (speed g + SPEED_INCREMENT)%Z else speed g).
Proof.
  unfold collected. game_fields.
  destruct (score g + 1 >? high_score g)%Z; game_fields;
    destruct (((score g + 1) mod SPEED_TRIGGER =? 0) && (speed g <? MAX_SPEED))%Z;
    game_fields; repeat split; reflexivity.
Qed.

Lemma spawn_sound (g0 : t) (draws : list Z) :
  core g0 -> sound holds (spawn_apple g0 draws).
Proof.
  intros Hc. unfold sound.
  destruct (spawn_apple g0 draws) as [[g rest] | e |] eqn:Hs.
  - exact (spawn_holds _ _ _ _ Hc Hs).
  - exact (spawn_never_throws _ _ _ Hs).
  - exact I.
Qed.

Lemma interval_positive (sp : Z) : (8 <= sp)%Z -> 0 < 1 / IZR sp.
Proof.
  intros H. apply Rdiv_lt_0_compat; [lra |]. apply IZR_lt. lia.
Qed.

Lemma collected_core (g : t) :
  core g ->
  state g = PLAYING ->
  Snake.grow_pending (snake g) = 0%Z ->
  move_timer g = 0 ->
  core (collected g).
Proof.
  intros [H1 H2 H3 H4 H5 H6 H7 H8 Hov H9] Hst Hp Ht.
  destruct (collected_fields g) as (Fs & Fsc & Fst & Ft & Fc & Fh & Ff & Fsp).
  pose proof (speed_step (score g) (speed g) H3 H4) as Hstep.
  unfold MAX_SPEED, STARTING_SPEED, SPEED_TRIGGER, SPEED_INCREMENT in *.
  rewrite Hstep in Fsp.
  constructor; rewrite ?Fs, ?Fsc, ?Fst, ?Ft, ?Fc, ?Fh, ?Ff, ?Fsp.
  - apply SnakeFacts.grow_holds. exact H1.
  - cbn [Snake.grow Snake.grow_pending]. lia.
  - lia.
  - reflexivity.
  - destruct (score g + 1 >? high_score g)%Z; [reflexivity | exact H5].
  - right. destruct (Z.gtb_spec (score g + 1) (high_score g)); lia.
  - intros _. cbn [Snake.grow Snake.body]. apply H7. rewrite Hst. discriminate.
  - rewrite Ht. apply interval_positive.
    pose proof (Z.div_pos (score g + 1) 5 ltac:(lia) ltac:(lia)). lia.
  - rewrite Hst. discriminate.
  - cbn [Snake.grow Snake.camera]. exact H9.
Qed.

Lemma collect_apple_sound (g : t) (draws : list Z) :
  core g ->
  state g = PLAYING ->
  Snake.grow_pending (snake g) = 0%Z ->
  move_timer g = 0 ->
  sound holds (collect_apple g draws).
Proof.
  intros Hc Hst Hp Ht. rewrite collect_apple_collected.
  apply spawn_sound. apply collected_core; assumption.
Qed.

Lemma after_calls_snoc (p : Point3) (sz : R) (calls : list LowPolySphere.call)
    (c : LowPolySphere.call) :
  LowPolySphere.after_calls p sz (calls ++ [c])
  = LowPolySphere.step (LowPolySphere.after_calls p sz calls) c.
Proof. unfold LowPolySphere.after_calls. rewrite fold_left_app. reflexivity. Qed.

(** The apple stays where it is, and turns, while the body changes to
    one that still avoids it. *)
Lemma apple_kept (g : t) (dt : R) (body' : list Snake.cell) (a : Snake.cell) (turns : list R) :
  apple_sphere g
  = Some (LowPolySphere.after_calls (cell_centre a) (CUBE_SIZE * 0.8)
            (map LowPolySphere.Update turns)) ->
  match apple_sphere g with
  | Some sphere => Some (LowPolySphere.update sphere dt)
  | None => None
  end
  = Some (LowPolySphere.after_calls (cell_centre a) (CUBE_SIZE * 0.8)
            (map LowPolySphere.Update (turns ++ [dt]))).
Proof.
  intros ->. rewrite map_app. simpl map. rewrite after_calls_snoc. reflexivity.
Qed.

Lemma state_eqb_eq (a b : GameState) : state_eqb a b = true <-> a = b.
Proof. destruct a, b; simpl; split; intros H; try reflexivity; discriminate H. Qed.

Lemma update_sound (g : t) (dt : R) (draws : list Z) :
  holds g -> sound holds (update g dt draws).
Proof.
  intros [Hc (a & turns & Hap & Hagrid & Hafree & Hsphere)].
  unfold update.
  destruct (state_eqb (state g) PLAYING) eqn:Hst; cbn [negb];
    [| split; [exact Hc |]; exists a, turns;
       split; [exact Hap |]; split; [exact Hagrid |];
       split; [exact Hafree | exact Hsphere]].
  apply state_eqb_eq in Hst.
  pose proof (speed_bounds g Hc) as Hsp.
  assert (Hsp0 : IZR (speed g) <> 0).
  { intros E. apply eq_IZR in E. lia. }
  rewrite (py_div_ok _ _ Hsp0).
  rewrite (apple_kept g dt (Snake.body (snake g)) a turns Hsphere).
  pose proof Hc as [H1 H2 H3 H4 H5 H6 H7 H8 Hov H9].
  destruct (Rge_dec (move_timer g + dt) (1 / IZR (speed g))) as [Hge | Hlt].
  - destruct (SnakeFacts.move_holds (snake g) (score g) H1) as (s' & Hm & Hinv').
    rewrite Hm.
    destruct (move_shape _ _ Hm) as (nh & rest' & Hb' & Hincl & Hnd & Hpend & Hcam).
    assert (Hp0 : Snake.grow_pending s' = 0%Z).
    { rewrite Hpend. pose proof (SnakeInv.pending_nonneg _ _ H1).
      destruct (Z.gtb_spec (Snake.grow_pending (snake g)) 0); lia. }
    destruct (H7 ltac:(rewrite Hst; discriminate)) as [Hnodup Hgrid].
    assert (Hafree' : ~ In a rest').
    { intros Hin. apply cell_in_not_In in Hafree. apply Hafree. apply Hincl. exact Hin. }
    assert (Hcore1 : forall st : GameState,
              (st <> GAME_OVER ->
               NoDup (Snake.body s') /\ Forall Snake.in_grid (Snake.body s')) ->
              (st = GAME_OVER -> Snake.check_collision s' = Some true) ->
              core (mk (camera g) (color_system g) s' st (score g) (high_score g)
                       (speed g) 0 (apple_pos g)
                       (Some (LowPolySphere.after_calls (cell_centre a) (CUBE_SIZE * 0.8)
                                (map LowPolySphere.Update (turns ++ [dt]))))
                       (file g))).
    { intros st Hclear Hhit. constructor; game_fields; try assumption.
      - lia.
      - apply interval_positive. lia.
      - destruct H9 as [Hc1 Hc2]. split; [exact Hc1 | congruence]. }
    destruct (Snake.check_collision s') as [[|] |] eqn:Hcc.
    + split.
      * unfold game_over. game_fields. apply Hcore1; [| intros _; reflexivity].
        intros Hno. contradiction Hno. reflexivity.
      * exists a, (turns ++ [dt]). game_fields.
        split; [exact Hap |]. split; [exact Hagrid |]. split; [| reflexivity].
        apply cell_in_not_In. rewrite Hb'. intros [Heq | Hin]; [| exact (Hafree' Hin)].
        subst nh.
        destruct (check_collision_true _ _ _ Hb' Hcc) as [Hout | Hself].
        -- exact (Hout Hagrid).
        -- apply cell_in_In in Hself. exact (Hafree' Hself).
    + destruct (check_collision_false _ _ _ Hb' Hcc) as [Hhgrid Hhfree].
      assert (Hclear : NoDup (Snake.body s') /\ Forall Snake.in_grid (Snake.body s')).
      { rewrite Hb'. split.
        - constructor; [apply cell_in_not_In; exact Hhfree | apply Hnd; exact Hnodup].
        - constructor; [exact Hhgrid |].
          rewrite Forall_forall in *. intros c Hin. apply Hgrid. apply Hincl. exact Hin. }
      rewrite Hb'. game_fields.
      destruct (head_on_apple nh (apple_pos g)) eqn:Hoa.
      * apply collect_apple_sound; game_fields;
          [ apply Hcore1; [intros _; exact Hclear | rewrite Hst; discriminate]
          | exact Hst | exact Hp0 | reflexivity ].
      * split; [apply Hcore1; [intros _; exact Hclear | rewrite Hst; discriminate] |].
        exists a, (turns ++ [dt]). game_fields.
        split; [exact Hap |]. split; [exact Hagrid |]. split; [| reflexivity].
        apply cell_in_not_In. rewrite Hb'. intros [Heq | Hin]; [| exact (Hafree' Hin)].
        subst nh. rewrite Hap in Hoa. simpl in Hoa.
        assert (Hrefl : Snake.cell_eqb a a = true) by (apply cell_eqb_eq; reflexivity).
        rewrite Hrefl in Hoa. discriminate Hoa.
    + unfold Snake.check_collision in Hcc. rewrite Hb' in Hcc.
      destruct ((fst nh <? 0) || (fst nh >=? GRID_WIDTH)
                || (snd nh <? 0) || (snd nh >=? GRID_HEIGHT))%Z; [discriminate |].
      destruct (Snake.cell_in nh rest'); discriminate.
  - split.
    + constructor; game_fields; try assumption. lra.
    + exists a, (turns ++ [dt]). game_fields.
      split; [exact Hap |]. split; [exact Hagrid |]. split; [exact Hafree | reflexivity].
Qed.

Lemma start_game_sound (g : t) (draws : list Z) :
  core g -> sound holds (start_game g draws).
Proof.
  intros Hc. unfold sound.
  destruct (start_game g draws) as [[g' rest] | e |] eqn:Hs.
  - exact (start_game_holds _ _ _ _ Hc Hs).
  - exact (spawn_never_throws _ _ _ Hs).
  - exact I.
Qed.

Lemma turn_holds (g : t) (d : Direction.t) :
  holds g -> state g = PLAYING ->
  holds (with_snake g (Snake.set_direction (snake g) d)).
Proof.
  intros [[H1 H2 H3 H4 H5 H6 H7 H8 Hov H9] Ha] Hst.
  assert (Hframe : Snake.body (Snake.set_direction (snake g) d) = Snake.body (snake g)
                   /\ Snake.grow_pending (Snake.set_direction (snake g) d)
                      = Snake.grow_pending (snake g)
                   /\ Snake.camera (Snake.set_direction (snake g) d)
                      = Snake.camera (snake g)).
  { unfold Snake.set_direction. destruct (negb _); repeat split; reflexivity. }
  destruct Hframe as (Fb & Fp & Fc).
  split.
  - constructor; game_fields; rewrite ?Fb, ?Fp, ?Fc; try assumption.
    + apply SnakeFacts.set_direction_holds. exact H1.
    + rewrite Hst. discriminate.
  - destruct Ha as (a & turns & Hap & Hgrid & Hfree & Hsph).
    exists a, turns. game_fields. rewrite Fb.
    split; [exact Hap |]. split; [exact Hgrid |]. split; [exact Hfree | exact Hsph].
Qed.

Lemma switch_holds (g : t) (st : GameState) :
  holds g -> state g <> GAME_OVER -> st <> GAME_OVER -> holds (with_state g st).
Proof.
  intros [[H1 H2 H3 H4 H5 H6 H7 H8 Hov H9] Ha] Hold Hnew. split.
  - constructor; game_fields; try assumption.
    + intros _. apply H7. exact Hold.
    + intros E. contradiction.
  - exact Ha.
Qed.

Lemma on_key_sound (g : t) (k : key) (draws : list Z) :
  holds g -> sound holds (on_key g k draws).
Proof.
  intros H. pose proof H as [Hc _]. unfold on_key.
  destruct (state g) eqn:Hst; destruct k;
    try exact H;
    try (apply start_game_sound; exact Hc);
    try (apply turn_holds; assumption);
    try (apply switch_holds; [exact H | rewrite Hst; discriminate | discriminate]).
Qed.

Lemma handle_input_sound (events : list event) (g : t) (draws : list Z) :
  holds g ->
  sound (fun r : t * bool => holds (fst r)) (handle_input g events draws).
Proof.
  revert g draws. induction events as [| ev rest IH]; intros g draws H.
  - exact H.
  - destruct ev as [| k |]; cbn [handle_input].
    + exact H.
    + pose proof (on_key_sound g k draws H) as Hk.
      destruct k; try exact H;
        (destruct (on_key g _ draws) as [[g' draws'] | e |];
         [apply IH; exact Hk | exact Hk | exact I]).
    + apply IH. exact H.
Qed.

(** Every game a session can be in satisfies the invariant. *)
Lemma reachable_holds (g : t) : reachable g -> holds g.
Proof.
  induction 1 as [f now draws rest g Hinit
                 | g g' events draws rest running _ IH Hin
                 | g g' dt draws rest _ IH Hup].
  - exact (init_holds _ _ _ _ _ Hinit).
  - pose proof (handle_input_sound events g draws IH) as Hs.
    rewrite Hin in Hs. exact Hs.
  - pose proof (update_sound g dt draws IH) as Hs.
    rewrite Hup in Hs. exact Hs.
Qed.

(** The game as constructed with no high-score file, the clock at 0 and
    the draws 3 and 4: the apple is on cell (3, 4). *)
Lemma first_game :
  exists g : t, init Missing 0 [3; 4]%Z = Finished (g, []) /\ reachable g.
Proof.
  eexists. split; [reflexivity |].
  eapply reach_init with (f := Missing) (now := 0) (draws := [3; 4]%Z).
  reflexivity.
Qed.

End GameFacts.

Module GameTheorems.
Import Const Game GameInv Collect SpawnFacts GameFacts.





(** X22.  There is always an apple, on a cell of the grid that the snake does
    not cover, also after a collision; its sphere has radius 16, sits at
    the centre of that cell and has only been turned since it was
    made. *)
Theorem apple_on_free_cell (g : t) :
  reachable g ->
  exists (a : Snake.cell) (turns : list R),
    apple_pos g = Some a
    /\ Snake.in_grid a
    /\ ~ In a (Snake.body (snake g))
    /\ apple_sphere g
       = Some (LowPolySphere.after_calls (cell_centre a) 16
                 (map LowPolySphere.Update turns)).
Proof.
  intros Hr. destruct (reachable_holds g Hr) as [_ (a & turns & Hap & Hgrid & Hfree & Hsph)].
  exists a, turns. split; [exact Hap |]. split; [exact Hgrid |].
  split; [apply cell_in_not_In; exact Hfree |].
  rewrite Hsph. unfold CUBE_SIZE. do 3 f_equal. lra.
Qed.

Lemma apple_on_free_cell_witness :
  exists g : t,
    init Missing 0 [3; 4]%Z = Finished (g, [])
    /\ exists (a : Snake.cell) (turns : list R),
         apple_pos g = Some a
         /\ Snake.in_grid a
         /\ ~ In a (Snake.body (snake g))
         /\ apple_sphere g
            = Some (LowPolySphere.after_calls (cell_centre a) 16
                      (map LowPolySphere.Update turns)).
Proof.
  destruct first_game as (g & Hinit & Hreach).
  exists g. split; [exact Hinit |]. exact (apple_on_free_cell g Hreach).
Defined.





End GameTheorems.

(** ** Dashed lines *)

Module DashFacts.
Import Game Dashes.

Section Loop.

Variables (x1 y1 dx dy line_length : R) (dash_length pattern_length : Z).
Variable c : Render.color.

Hypothesis pattern_positive : (0 < pattern_length)%Z.

(** Dashes still to draw when the loop is about to start dash [k]. *)
Lemma remaining_zero (k : nat) :
  ~ IZR (Z.of_nat k * pattern_length) < line_length ->
  (count line_length pattern_length <= k)%nat.
Proof.
  intros Hge. unfold count.
  assert (Hp : 0 < IZR pattern_length) by (apply IZR_lt; exact pattern_positive).
  assert (Hle : line_length / IZR pattern_length <= IZR (Z.of_nat k)).
  { apply (Rmult_le_reg_r (IZR pattern_length)); [exact Hp |].
    unfold Rdiv. rewrite Rmult_assoc, Rinv_l by lra.
    rewrite <- mult_IZR. lra. }
  pose proof (Zceil_le _ _ Hle) as Hc.
  rewrite (Zceil_eq (Z.of_nat k) (IZR (Z.of_nat k))) in Hc by lra. lia.
Qed.

Lemma remaining_positive (k : nat) :
  IZR (Z.of_nat k * pattern_length) < line_length ->
  (k < count line_length pattern_length)%nat.
Proof.
  intros Hlt. unfold count.
  assert (Hp : 0 < IZR pattern_length) by (apply IZR_lt; exact pattern_positive).
  assert (Hk : IZR (Z.of_nat k) < line_length / IZR pattern_length).
  { apply (Rmult_lt_reg_r (IZR pattern_length)); [exact Hp |].
    unfold Rdiv. rewrite Rmult_assoc, Rinv_l by lra.
    rewrite <- mult_IZR. lra. }
  destruct (Zceil_bound (line_length / IZR pattern_length)) as [_ Hub].
  assert (Hz : (Z.of_nat k < Zceil (line_length / IZR pattern_length))%Z).
  { apply lt_IZR. lra. }
  lia.
Qed.

(** The loop, entered at dash [k] with enough fuel, draws the dashes
    from [k] on and stops. *)
Lemma dash_loop_from (n k extra : nat) (screen : Render.surface) :
  (k + n = count line_length pattern_length)%nat ->
  dash_loop (n + extra) x1 y1 dx dy line_length dash_length pattern_length c
            (Z.of_nat k * pattern_length) screen
  = Some (screen
          ++ map (dash_at x1 y1 dx dy line_length dash_length pattern_length c)
                 (seq k n)).
Proof.
  revert k screen. induction n as [| n IH]; intros k screen Hn.
  - assert (Hstop : ~ IZR (Z.of_nat k * pattern_length) < line_length).
    { intros Hlt. apply remaining_positive in Hlt. lia. }
    simpl seq. simpl map. rewrite app_nil_r.
    destruct extra; simpl;
      destruct (Rlt_dec (IZR (Z.of_nat k * pattern_length)) line_length);
      try contradiction; reflexivity.
  - assert (Hgo : IZR (Z.of_nat k * pattern_length) < line_length).
    { destruct (Rlt_dec (IZR (Z.of_nat k * pattern_length)) line_length) as [H | H];
        [exact H |]. apply remaining_zero in H. lia. }
    cbn [Nat.add dash_loop].
    destruct (Rlt_dec (IZR (Z.of_nat k * pattern_length)) line_length);
      [| contradiction].
    replace (Z.of_nat k * pattern_length + pattern_length)%Z
      with (Z.of_nat (S k) * pattern_length)%Z by lia.
    rewrite IH by lia. rewrite <- app_assoc. reflexivity.
Qed.

(** With less fuel than dashes the loop is cut short. *)
Lemma dash_loop_short (fuel k : nat) (screen : Render.surface) :
  (k + fuel < count line_length pattern_length)%nat ->
  dash_loop fuel x1 y1 dx dy line_length dash_length pattern_length c
            (Z.of_nat k * pattern_length) screen
  = None.
Proof.
  revert k screen. induction fuel as [| fuel IH]; intros k screen Hn.
  - assert (Hgo : IZR (Z.of_nat k * pattern_length) < line_length).
    { destruct (Rlt_dec (IZR (Z.of_nat k * pattern_length)) line_length) as [H | H];
        [exact H |]. apply remaining_zero in H. lia. }
    simpl. destruct (Rlt_dec (IZR (Z.of_nat k * pattern_length)) line_length);
      [reflexivity | contradiction].
  - assert (Hgo : IZR (Z.of_nat k * pattern_length) < line_length).
    { destruct (Rlt_dec (IZR (Z.of_nat k * pattern_length)) line_length) as [H | H];
        [exact H |]. apply remaining_zero in H. lia. }
    cbn [dash_loop].
    destruct (Rlt_dec (IZR (Z.of_nat k * pattern_length)) line_length);
      [| contradiction].
    replace (Z.of_nat k * pattern_length + pattern_length)%Z
      with (Z.of_nat (S k) * pattern_length)%Z by lia.
    apply IH. lia.
Qed.

End Loop.

(** With a pattern that does not advance, the loop never gets past a
    position that is before the end of the line. *)
Lemma dash_loop_stuck (x1 y1 dx dy line_length : R) (dash_length pattern_length : Z)
    (c : Render.color) (fuel : nat) (current_pos : Z) (screen : Render.surface) :
  (pattern_length <= 0)%Z ->
  (current_pos <= 0)%Z ->
  0 < line_length ->
  dash_loop fuel x1 y1 dx dy line_length dash_length pattern_length c
            current_pos screen
  = None.
Proof.
  intros Hp. revert current_pos screen.
  induction fuel as [| fuel IH]; intros current_pos screen Hcp HL;
    assert (Hgo : IZR current_pos < line_length)
      by (apply Rle_lt_trans with 0; [apply (IZR_le _ 0); exact Hcp | exact HL]);
    cbn [dash_loop];
    destruct (Rlt_dec (IZR current_pos) line_length); try contradiction.
  - reflexivity.
  - apply IH; [lia | exact HL].
Qed.

Lemma count_zero (pattern_length : Z) : count 0 pattern_length = 0%nat.
Proof.
  unfold count. replace (0 / IZR pattern_length) with (IZR 0)
    by (unfold Rdiv; rewrite Rmult_0_l; reflexivity).
  rewrite (Zceil_eq 0 (IZR 0)) by lra. reflexivity.
Qed.

(** X27.  Over the reals, a dashed line with a positive pattern length (dash
    plus gap) takes as many rounds of the loop as there are multiples of the pattern
    length before the end of the line --- the length over the pattern
    length, rounded up --- and draws, in order, the dash of each: from
    the multiple to a dash length further, or to the end of the line if
    that is nearer.  A line of length zero draws nothing.  With less
    fuel the loop is still running. *)
Theorem dashed_line_draws (screen : Render.surface) (start end_ : Point2)
    (c : Render.color) (dash_length gap_length : Z) :
  (0 < dash_length + gap_length)%Z ->
  let line_length := dist2 end_ start in
  let n := count line_length (dash_length + gap_length) in
  let dx := (fst end_ - fst start) / line_length in
  let dy := (snd end_ - snd start) / line_length in
  (forall extra : nat,
     _draw_dashed_line (n + extra) screen start end_ c dash_length gap_length
     = Some (screen
             ++ map (dash_at (fst start) (snd start) dx dy line_length
                       dash_length (dash_length + gap_length) c)
                    (seq 0 n)))
  /\ (forall fuel : nat,
        (fuel < n)%nat ->
        _draw_dashed_line fuel screen start end_ c dash_length gap_length = None).
Proof.
  intros Hp. destruct start as [x1 y1]. destruct end_ as [x2 y2].
  cbn zeta. unfold _draw_dashed_line, dist2. cbn [fst snd].
  destruct (Req_dec_T (sqrt ((x2 - x1) * (x2 - x1) + (y2 - y1) * (y2 - y1))) 0)
    as [E | N].
  - rewrite E, count_zero. split.
    + intros extra. simpl. rewrite app_nil_r. reflexivity.
    + intros fuel Hf. lia.
  - split.
    + intros extra.
      change 0%Z with (Z.of_nat 0 * (dash_length + gap_length))%Z at 1.
      apply dash_loop_from; [exact Hp | reflexivity].
    + intros fuel Hf.
      change 0%Z with (Z.of_nat 0 * (dash_length + gap_length))%Z at 1.
      apply dash_loop_short; [exact Hp | exact Hf].
Qed.

Lemma dashed_line_draws_witness :
  _draw_dashed_line (count (dist2 (30, 40) (0, 0)) (5 + 5) + 0) []
    (0, 0) (30, 40) (128, 128, 128)%Z 5 5
  = Some ([] ++ map (dash_at (fst (0, 0)) (snd (0, 0))
                       ((fst (30, 40) - fst (0, 0)) / dist2 (30, 40) (0, 0))
                       ((snd (30, 40) - snd (0, 0)) / dist2 (30, 40) (0, 0))
                       (dist2 (30, 40) (0, 0)) 5 (5 + 5) (128, 128, 128)%Z)
                  (seq 0 (count (dist2 (30, 40) (0, 0)) (5 + 5)))).
Proof.
  apply (proj1 (dashed_line_draws [] (0, 0) (30, 40) (128, 128, 128)%Z 5 5
                  ltac:(lia))).
Defined.

(** The line from (0, 0) to (30, 40) is 50 long: five dashes. *)
Example five_dashes : count (dist2 (30, 40) (0, 0)) (5 + 5) = 5%nat.
Proof.
  unfold count, dist2.
  replace ((30 - 0) * (30 - 0) + (40 - 0) * (40 - 0)) with (50 * 50) by ring.
  rewrite sqrt_square by lra.
  rewrite (Zceil_eq 5) by (simpl; lra). reflexivity.
Qed.

(** X28.  Over the reals, with a dash and a gap that add up to nothing, or
    less, and a line whose computed length is not zero (the test the
    method makes before the loop), the loop never leaves the start of
    the line: it runs forever. *)
Theorem dashed_line_never_ends (screen : Render.surface) (start end_ : Point2)
    (c : Render.color) (dash_length gap_length : Z) (fuel : nat) :
  (dash_length + gap_length <= 0)%Z ->
  dist2 end_ start <> 0 ->
  _draw_dashed_line fuel screen start end_ c dash_length gap_length = None.
Proof.
  intros Hp Hne. destruct start as [x1 y1]. destruct end_ as [x2 y2].
  unfold _draw_dashed_line. unfold dist2 in Hne.
  destruct (Req_dec_T (sqrt ((x2 - x1) * (x2 - x1) + (y2 - y1) * (y2 - y1))) 0)
    as [E | N]; [contradiction |].
  apply dash_loop_stuck; [exact Hp | lia |].
  pose proof (sqrt_pos ((x2 - x1) * (x2 - x1) + (y2 - y1) * (y2 - y1))) as Hge.
  lra.
Qed.

Lemma dashed_line_never_ends_witness :
  _draw_dashed_line 1000 [] (0, 0) (30, 40) (128, 128, 128)%Z 5 (-5) = None.
Proof.
  apply dashed_line_never_ends.
  - lia.
  - unfold dist2.
    replace ((30 - 0) * (30 - 0) + (40 - 0) * (40 - 0)) with (50 * 50) by ring.
    rewrite sqrt_square by lra. lra.
Defined.

End DashFacts.

Module GameProgress.
Import Const Game GameInv Collect SpawnFacts GameFacts.





(** A board with a snake on every cell. *)
Lemma spawn_apple_loops_on_full_board_witness :
  spawn_apple
    (mk (PerspectiveCamera.make 800 600) (ColorEvolution.init 60 0)
        (Snake.mk (PerspectiveCamera.make 800 600) all_cells
                  Direction.RIGHT Direction.RIGHT 0 [])
        PLAYING 297 297 20 0 None None Missing)
    [3; 4; 5; 6]%Z
  = Unfinished.
Proof.
  apply spawn_apple_loops_on_full_board. vm_compute. reflexivity.
Defined.

End GameProgress.

Module SphereShape.
Import LowPolySphere.

(** Turning, scaling and moving two points scales their distance by
    [|size|]. *)
Lemma placed_distance (px py pz angle sz : R) (u w : Point3) :
  dist3 (let '(rx, ry, rz) := _rotate_y u angle in
         (px + rx * sz, py + ry * sz, pz + rz * sz))
        (let '(rx, ry, rz) := _rotate_y w angle in
         (px + rx * sz, py + ry * sz, pz + rz * sz))
  = Rabs sz * dist3 u w.
Proof.
  destruct u as [[ux uy] uz]. destruct w as [[wx wy] wz].
  unfold _rotate_y, dist3.
  pose proof (sin2_cos2 (radians angle)) as H. unfold Rsqr in H.
  set (c := cos (radians angle)) in *. set (s := sin (radians angle)) in *.
  rewrite <- sqrt_square_scaled. f_equal.
  replace ((px + (ux * c + uz * s) * sz - (px + (wx * c + wz * s) * sz))
           * (px + (ux * c + uz * s) * sz - (px + (wx * c + wz * s) * sz))
           + (py + uy * sz - (py + wy * sz)) * (py + uy * sz - (py + wy * sz))
           + (pz + (- ux * s + uz * c) * sz - (pz + (- wx * s + wz * c) * sz))
             * (pz + (- ux * s + uz * c) * sz - (pz + (- wx * s + wz * c) * sz)))
    with (sz * sz * (((ux - wx) * (ux - wx) + (uz - wz) * (uz - wz)) * (s * s + c * c)
                     + (uy - wy) * (uy - wy))) by ring.
  rewrite H. f_equal. ring.
Qed.

(** Two raw vertices of one length, once normalised, are at their raw
    distance divided by that length. *)
Lemma normalized_distance (a b : Point3) (m d : R) :
  0 < m ->
  norm_sq a = m ->
  norm_sq b = m ->
  (fst (fst a) - fst (fst b)) * (fst (fst a) - fst (fst b))
  + (snd (fst a) - snd (fst b)) * (snd (fst a) - snd (fst b))
  + (snd a - snd b) * (snd a - snd b) = d ->
  dist3 (normalize a) (normalize b) = sqrt (d / m).
Proof.
  destruct a as [[ax ay] az]. destruct b as [[bx by_] bz].
  unfold norm_sq, normalize, dist3. cbn [fst snd]. intros Hm Ha Hb Hd.
  rewrite Ha, Hb.
  assert (Hs : sqrt m * sqrt m = m) by (apply sqrt_sqrt; lra).
  assert (Hs0 : sqrt m <> 0) by (intros E; rewrite E in Hs; lra).
  f_equal. set (r := sqrt m) in *.
  transitivity (((ax - bx) * (ax - bx) + (ay - by_) * (ay - by_)
                 + (az - bz) * (az - bz)) / (r * r)).
  - field. exact Hs0.
  - rewrite Hs, Hd. reflexivity.
Qed.

Lemma edge_world_length (px py pz angle sz : R) :
  Forall (fun e : Wire.edge =>
            dist3 (nth (fst e)
                     (map (fun v : Point3 =>
                             let '(rx, ry, rz) := _rotate_y v angle in
                             (px + rx * sz, py + ry * sz, pz + rz * sz))
                          _generate_icosahedron) (0, 0, 0))
                  (nth (snd e)
                     (map (fun v : Point3 =>
                             let '(rx, ry, rz) := _rotate_y v angle in
                             (px + rx * sz, py + ry * sz, pz + rz * sz))
                          _generate_icosahedron) (0, 0, 0))
            = Rabs sz * sqrt (4 / (phi + 2)))
         _generate_edges.
Proof.
  pose proof SphereFacts.phi_sq as Hphi. pose proof SphereFacts.phi_pos as Hpos.
  unfold _generate_edges, _generate_icosahedron, raw_vertices.
  repeat (apply Forall_cons;
          [ cbn [nth map fst snd];
            rewrite placed_distance; f_equal;
            apply normalized_distance;
            [ lra | unfold norm_sq; nra | unfold norm_sq; nra | cbn [fst snd]; nra ]
          |]).
  apply Forall_nil.
Qed.

(** X11.  All thirty listed edges of a sphere have one and the same length in
    the world, [|size| * sqrt (4 / (phi + 2))], about 1.05 times the
    radius, at every position and rotation. *)
Theorem sphere_edges_have_one_length
    (position_3d : Point3) (sz : R) (calls : list call) :
  let self := after_calls position_3d sz calls in
  Forall (fun e : Wire.edge =>
            dist3 (nth (fst e) (vertices_3d self) (0, 0, 0))
                  (nth (snd e) (vertices_3d self) (0, 0, 0))
            = Rabs sz * sqrt (4 / (phi + 2)))
         (edges self).
Proof.
  intros self.
  destruct (SphereFacts.after_calls_frame position_3d sz calls)
    as (Hs & _ & Hb & He & Hc).
  fold self in Hs, Hb, He, Hc.
  rewrite He, Hc. unfold _calculate_world_vertices. rewrite Hb, Hs.
  destruct (position self) as [[px py] pz].
  apply edge_world_length.
Qed.

End SphereShape.

Module InputFacts.
Import Game Events.

(** X26.  [handle_input] stops at the first quit event, the window's or the Q
    key: what was handled before it stays handled, the events after it
    are not looked at, and the return value is [False].  Without a quit
    event the return value is [True]. *)
Theorem handle_input_stops_at_quit
    (before later : list event) (quit : event) (g : t) (draws : list Z) :
  is_quit quit = true ->
  forallb (fun ev => negb (is_quit ev)) before = true ->
  handle_input g (before ++ quit :: later) draws
  = match handle_input g before draws with
    | Finished ((g', _), draws') => Finished ((g', false), draws')
    | Threw e => Threw e
    | Unfinished => Unfinished
    end
  /\ match handle_input g before draws with
     | Finished ((_, running), _) => running = true
     | _ => True
     end.
Proof.
  intros Hq. revert g draws. induction before as [| ev rest IH]; intros g draws Hb.
  - simpl. destruct quit as [| k |]; try discriminate Hq.
    + split; reflexivity.
    + destruct k; try discriminate Hq. split; reflexivity.
  - simpl in Hb. apply andb_prop in Hb as [Hev Hrest].
    destruct ev as [| k |]; try discriminate Hev.
    + destruct k; try discriminate Hev; cbn [app handle_input];
        (destruct (on_key g _ draws) as [[g1 draws1] | e |];
         [apply IH; exact Hrest | split; [reflexivity | exact I]
          | split; [reflexivity | exact I]]).
    + cbn [app handle_input]. apply IH. exact Hrest.
Qed.

Lemma handle_input_stops_at_quit_witness :
  exists g : t,
    init Missing 0 [3; 4]%Z = Finished (g, [])
    /\ handle_input g ([KEYDOWN K_p; OtherEvent] ++ KEYDOWN K_q :: [KEYDOWN K_SPACE]) []
       = match handle_input g [KEYDOWN K_p; OtherEvent] [] with
         | Finished ((g', _), draws') => Finished ((g', false), draws')
         | Threw e => Threw e
         | Unfinished => Unfinished
         end.
Proof.
  eexists. split; [reflexivity |].
  apply (handle_input_stops_at_quit [KEYDOWN K_p; OtherEvent] [KEYDOWN K_SPACE]
           (KEYDOWN K_q)); reflexivity.
Defined.

End InputFacts.
